(** * lichess-puzzle-stats: the fetch cache and the nearest-date sampler

    A shallow embedding of [puzzle.py]: the calendar dates the sampler
    compares, [parse_perf], [filter_perf], and the effectful collection code
    ([save], [retry], [get_puzzle_history], [fetch_perf]) over an explicit
    world of remote service, disk and event trace. *)

From stdpp Require Import base strings gmap list.
From Stdlib Require Import ZArith Lia.

Local Open Scope Z_scope.

(** ** Calendar dates, as Python's [datetime.date] has them *)

Module Date.

Record date := mk { year : Z; month : Z; day : Z }.

Definition is_leap (y : Z) : bool :=
  (y mod 4 =? 0) && (negb (y mod 100 =? 0) || (y mod 400 =? 0)).

Definition days_in_month (y m : Z) : Z :=
  if (m =? 2) && is_leap y then 29
  else nth (Z.to_nat m) [-1; 31; 28; 31; 30; 31; 30; 31; 31; 30; 31; 30; 31] (-1).

Definition days_before_year (y : Z) : Z :=
  let p := y - 1 in p * 365 + p / 4 - p / 100 + p / 400.

Definition days_before_month (y m : Z) : Z :=
  nth (Z.to_nat m) [-1; 0; 31; 59; 90; 120; 151; 181; 212; 243; 273; 304; 334] (-1)
  + (if (2 <? m) && is_leap y then 1 else 0).

(** The checks of the [datetime.date(year, month, day)] constructor. *)
Definition valid (y m d : Z) : bool :=
  (1 <=? y) && (y <=? 9999) && (1 <=? m) && (m <=? 12)
  && (1 <=? d) && (d <=? days_in_month y m).

(** [datetime.date(y, m, d)]: [None] when the constructor raises. *)
Definition make (y m d : Z) : option date :=
  if valid y m d then Some (mk y m d) else None.

Definition toordinal (a : date) : Z :=
  days_before_year (year a) + days_before_month (year a) (month a) + day a.

(** [datetime.date.min] *)
Definition min : date := mk 1 1 1.

(** [a - b], a [timedelta] of whole days. *)
Definition sub (a b : date) : Z := toordinal a - toordinal b.

End Date.

Abbreviation date := Date.date.

(** A [timedelta]; the program builds them from whole days only
    ([timedelta(days=7)] and differences of dates). *)
Definition timedelta := Z.

(** ** Cached data *)

(** A raw point of the remote service: [[year, month0, day, rating]]. *)
Definition raw_point : Type := Z * Z * Z * Z.

(** A cache entry [(user, perf)]; [perf] is [None] or a list of points. *)
Definition entry : Type := string * option (list raw_point).

Definition point : Type := date * Z.

(** Python truthiness of a cached history: [None] and [[]] are falsy. *)
Definition truthy_perf (p : option (list raw_point)) : bool :=
  match p with
  | Some (_ :: _) => true
  | _ => false
  end.

(** Python truthiness of a matched score: [None] and [0] are falsy. *)
Definition truthy_score (s : option Z) : bool :=
  match s with
  | Some v => negb (v =? 0)
  | None => false
  end.

(** ** [parse_perf] *)

Definition parse_point (d : raw_point) : option point :=
  let '(y, m, dd, v) := d in
  match Date.make y (m + 1) dd with
  | Some a => Some (a, v)
  | None => None
  end.

(** The inner comprehension; [None] when a [datetime.date] call raises. *)
Fixpoint parse_points (perf : list raw_point) : option (list point) :=
  match perf with
  | [] => Some []
  | d :: rest =>
      match parse_point d with
      | None => None
      | Some p =>
          match parse_points rest with
          | None => None
          | Some ps => Some (p :: ps)
          end
      end
  end.

Fixpoint parse_perf (data : list entry) : option (list (string * list point)) :=
  match data with
  | [] => Some []
  | (user, perf) :: rest =>
      if truthy_perf perf then
        match parse_points (default [] perf) with
        | None => None
        | Some ps =>
            match parse_perf rest with
            | None => None
            | Some out => Some ((user, ps) :: out)
            end
        end
      else parse_perf rest
  end.

(** ** [filter_perf] *)

Definition candidate : Type := date * option Z.

Record closests := mkClosests {
  closest_start : candidate;
  closest_ref_start : candidate;
  closest_end : candidate;
  closest_ref_end : candidate
}.

(** One [if abs(day - target) < abs(target - closest[0])] of the scan. *)
Definition closer (target : date) (best : candidate) (p : point) : candidate :=
  if Z.abs (Date.sub (fst p) target) <? Z.abs (Date.sub target (fst best))
  then (fst p, Some (snd p)) else best.

(** [closest[1]] used as a condition. *)
Definition has_score (c : candidate) : bool := truthy_score (snd c).

(** [abs(closest[0] - target) <= tol] *)
Definition in_tolerance (c : candidate) (target : date) (tol : timedelta) : bool :=
  Z.abs (Date.sub (fst c) target) <=? tol.

(** An element of [values]: four matched scores. *)
Definition sample : Type := option Z * option Z * option Z * option Z.

Section Sampler.

Variables (start end_ : date) (tolerance : timedelta).
Variables (ref_start ref_end : date) (ref_tolerance : timedelta).

Definition scan_step (c : closests) (p : point) : closests :=
  {| closest_start := closer start (closest_start c) p;
     closest_ref_start := closer ref_start (closest_ref_start c) p;
     closest_end := closer end_ (closest_end c) p;
     closest_ref_end := closer ref_end (closest_ref_end c) p |}.

Definition scan_init : closests :=
  let s := (Date.min, None) in mkClosests s s s s.

(** The loop [for day, score in perf]. *)
Definition scan (perf : list point) : closests :=
  fold_left scan_step perf scan_init.

(** The condition of lines 202-205, conjunct by conjunct, with the
    tolerances as they are written there. *)
Definition accepts (c : closests) : bool :=
  has_score (closest_start c)
  && in_tolerance (closest_start c) start tolerance
  && has_score (closest_ref_start c)
  && in_tolerance (closest_ref_start c) ref_start tolerance
  && has_score (closest_end c)
  && in_tolerance (closest_end c) end_ ref_tolerance
  && has_score (closest_ref_end c)
  && in_tolerance (closest_ref_end c) ref_end ref_tolerance.

Definition sample_of (c : closests) : sample :=
  (snd (closest_start c), snd (closest_end c),
   snd (closest_ref_start c), snd (closest_ref_end c)).

(** The list [values] that [filter_perf] builds and returns. *)
Fixpoint filter_values (data : list (string * list point)) : list sample :=
  match data with
  | [] => []
  | (user, perf) :: rest =>
      let c := scan perf in
      if accepts c then sample_of c :: filter_values rest
      else filter_values rest
  end.

End Sampler.

(** ** The world the collection code runs in *)

(** What the remote calls raise: berserk's [ResponseError] with its
    [status_code], or any other [Exception]. *)
Inductive exn :=
| ResponseError (status_code : Z)
| OtherException (what : string).

#[global] Instance exn_eq_dec : EqDecision exn.
Proof. solve_decision. Defined.

Inductive outcome (A : Type) :=
| Ret (a : A)
| Raise (e : exn).
Arguments Ret {A} a.
Arguments Raise {A} e.

Module Track.
(** One element of a rating history: [{'name': ..., 'points': ...}]. *)
Record track := mk { name : string; points : list raw_point }.
End Track.
Abbreviation track := Track.track.

Inductive level := Debug | Info | Warning | Fatal.

Inductive message :=
| RateLimited
| UserMissing (user : string)
| RetrieveFailed (user : string)
| RetrieveSkipped (user : string) (err : string)
| Progress (checked withdata cached total : Z)
| SavedPerf (total : Z)
| SavedSample (total : Z).

(** What [json.dump] writes. *)
Inductive file :=
| CacheFile (data : list entry)
| SampleFile (values : list sample).

Inductive event :=
| Request (what : string)
| Sleep (secs : Z)
| Log (lvl : level) (msg : message)
| Saved (path : string) (content : file).

Definition is_request (e : event) : bool :=
  match e with Request _ => true | _ => false end.

Definition is_sleep (e : event) : bool :=
  match e with Sleep _ => true | _ => false end.

Definition saved_of (e : event) : option (string * file) :=
  match e with Saved p c => Some (p, c) | _ => None end.

(** The remote calls, the sleeps and the writes of a trace. *)
Definition requests (t : list event) : list event := List.filter is_request t.
Definition sleeps (t : list event) : list event := List.filter is_sleep t.
Definition saves (t : list event) : list (string * file) := omap saved_of t.

Section World.

(** The remote service: its state, and its answer to
    [client.users.get_rating_history(user)]. *)
Variable Env : Type.
Variable remote : string -> Env -> outcome (list track) * Env.

Record world := mkWorld {
  env : Env;
  data : list entry;            (* the list object passed as [data] *)
  disk : gmap string file;
  trace : list event
}.

Definition M (A : Type) : Type := world -> outcome A * world.

Definition ret {A} (a : A) : M A := fun w => (Ret a, w).

Definition bind {A B} (m : M A) (k : A -> M B) : M B :=
  fun w =>
    match m w with
    | (Ret a, w1) => k a w1
    | (Raise e, w1) => (Raise e, w1)
    end.

Definition emit (e : event) (w : world) : world :=
  mkWorld (env w) (data w) (disk w) (trace w ++ [e]).

Definition logger (lvl : level) (msg : message) : M unit :=
  fun w => (Ret tt, emit (Log lvl msg) w).

Definition sleep (secs : Z) : M unit :=
  fun w => (Ret tt, emit (Sleep secs) w).

(** [data.append(e)] *)
Definition append (e : entry) : M unit :=
  fun w => (Ret tt, mkWorld (env w) (data w ++ [e]) (disk w) (trace w)).

(** [save(path, data)]: the atomic write replaces the whole file. *)
Definition save (path : string) (content : file) : M unit :=
  fun w =>
    (Ret tt,
     mkWorld (env w) (data w) (<[path := content]> (disk w))
             (trace w ++ [Saved path content])).

(** A remote operation: it is recorded, and it answers from [Env]. *)
Definition call {A} (what : string) (op : Env -> outcome A * Env) : M A :=
  fun w =>
    let '(r, e) := op (env w) in
    (r, mkWorld e (data w) (disk w) (trace w ++ [Request what])).

Definition get_rating_history (user : string) : M (list track) :=
  call user (remote user).

(** [retry(f)] *)
Definition retry {A} (f : M A) : M A :=
  fun w =>
    match f w with
    | (Raise (ResponseError status_code), w1) =>
        if status_code =? 429 then
          bind (logger Info RateLimited) (fun _ =>
          bind (sleep 61) (fun _ => f)) w1
        else (Raise (ResponseError status_code), w1)
    | r => r
    end.

(** The tail of [get_puzzle_history]: the points of the first track named
    "Puzzles", [None] when there is none. *)
Definition puzzle_points (history : list track) : option (list raw_point) :=
  match filter (fun h => Track.name h = "Puzzles"%string) history with
  | [] => None
  | t :: _ => Some (Track.points t)
  end.

Definition get_puzzle_history (user : string) : M (option (list raw_point)) :=
  fun w =>
    match get_rating_history user w with
    | (Ret history, w1) => (Ret (puzzle_points history), w1)
    | (Raise (ResponseError status_code), w1) =>
        if status_code =? 404 then
          bind (logger Warning (UserMissing user)) (fun _ => ret None) w1
        else if status_code =? 429 then
          bind (logger Info RateLimited) (fun _ =>
          bind (sleep 61) (fun _ =>
          bind (get_rating_history user) (fun history =>
          ret (puzzle_points history)))) w1
        else
          bind (logger Fatal (RetrieveFailed user)) (fun _ =>
          fun w2 => (Raise (ResponseError status_code), w2)) w1
    | (Raise (OtherException err), w1) =>
        bind (logger Warning (RetrieveSkipped user err)) (fun _ => ret None) w1
    end.

Record counters := mkCounters { checked : Z; cached : Z; withdata : Z }.

(** The inner loop [for (u, p) in data]: the first entry of [user]. *)
Fixpoint lookup_user (user : string) (l : list entry)
  : option (option (list raw_point)) :=
  match l with
  | [] => None
  | (u, p) :: rest => if decide (u = user) then Some p else lookup_user user rest
  end.

Section Fetch.

Variables (num : Z) (filename : string).

(** One iteration of [for user in users], after the test of the limit. *)
Definition fetch_body (user : string) (c : counters) : M counters :=
  fun w =>
    let checked' := checked c + 1 in
    bind
      (match lookup_user user (data w) with
       | Some p =>
           ret (mkCounters checked' (cached c + 1)
                           (if truthy_perf p then withdata c + 1 else withdata c))
       | None =>
           bind (get_puzzle_history user) (fun h =>
           bind (append (user, h)) (fun _ =>
           bind (fun w1 => save filename (CacheFile (data w1)) w1) (fun _ =>
           ret (mkCounters checked' (cached c)
                           (if truthy_perf h then withdata c + 1 else withdata c)))))
       end)
      (fun c1 =>
         if checked c1 mod 10 =? 0 then
           bind (fun w1 =>
                   logger Debug (Progress (checked c1) (withdata c1) (cached c1)
                                          (Z.of_nat (length (data w1)))) w1)
                (fun _ => ret c1)
         else ret c1)
      w.

Fixpoint fetch_loop (users : list string) (c : counters) : M counters :=
  match users with
  | [] => ret c
  | user :: rest =>
      if num <=? checked c then ret c
      else bind (fetch_body user c) (fetch_loop rest)
  end.

Definition fetch_perf (users : list string) : M (list entry) :=
  bind (fetch_loop users (mkCounters 0 0 0)) (fun _ =>
  bind (fun w => logger Info (SavedPerf (Z.of_nat (length (data w)))) w) (fun _ =>
  fun w => (Ret (data w), w))).

End Fetch.

(** [filter_perf]: the values are logged, written to [sample.json] and
    returned. *)
Definition filter_perf (parsed : list (string * list point))
    (start end_ : date) (tolerance : timedelta)
    (ref_start ref_end : date) (ref_tolerance : timedelta) : M (list sample) :=
  let values :=
    filter_values start end_ tolerance ref_start ref_end ref_tolerance parsed in
  bind (logger Info (SavedSample (Z.of_nat (length values)))) (fun _ =>
  bind (save "sample.json" (SampleFile values)) (fun _ =>
  ret values)).

End World.

Arguments world Env : clear implicits.
Arguments M Env A : clear implicits.
Arguments mkWorld {Env} _ _ _ _.
Arguments env {Env} _.
Arguments data {Env} _.
Arguments disk {Env} _.
Arguments trace {Env} _.
Arguments ret {Env A} _ _.
Arguments bind {Env A B} _ _ _.
Arguments emit {Env} _ _.
Arguments logger {Env} _ _ _.
Arguments sleep {Env} _ _.
Arguments append {Env} _ _.
Arguments save {Env} _ _ _.
Arguments call {Env A} _ _ _.
Arguments get_rating_history {Env} _ _ _.
Arguments retry {Env A} _ _.
Arguments get_puzzle_history {Env} _ _ _.
Arguments fetch_body {Env} _ _ _ _ _.
Arguments fetch_loop {Env} _ _ _ _ _.
Arguments fetch_perf {Env} _ _ _ _ _.
Arguments filter_perf {Env} _ _ _ _ _ _ _ _.

(** ** Derived notions used in the statements *)

(** Absolute day distance between two dates. *)
Definition days_apart (a b : date) : Z := Z.abs (Date.sub a b).

(** The scan of [filter_perf] for one target date alone. *)
Definition nearest (target : date) (perf : list point) : candidate :=
  fold_left (closer target) perf (Date.min, None).

(** The four per-target checks of lines 202-205, one per source line:
    the candidate, its target date and the tolerance it is compared to. *)
Definition checks (start end_ : date) (tolerance : timedelta)
    (ref_start ref_end : date) (ref_tolerance : timedelta) (c : closests)
  : list (candidate * date * timedelta) :=
  [ (closest_start c, start, tolerance);
    (closest_ref_start c, ref_start, tolerance);
    (closest_end c, end_, ref_tolerance);
    (closest_ref_end c, ref_end, ref_tolerance) ].

Definition check (k : candidate * date * timedelta) : bool :=
  let '(c, target, tol) := k in has_score c && in_tolerance c target tol.

(** The acceptance rule in the words of the specification: the study
    tolerance for start and end, the reference tolerance for the reference
    start and end. *)
Definition accepts_as_specified (start end_ : date) (t : timedelta)
    (ref_start ref_end : date) (tr : timedelta) (c : closests) : bool :=
  has_score (closest_start c) && has_score (closest_end c)
  && has_score (closest_ref_start c) && has_score (closest_ref_end c)
  && in_tolerance (closest_start c) start t
  && in_tolerance (closest_end c) end_ t
  && in_tolerance (closest_ref_start c) ref_start tr
  && in_tolerance (closest_ref_end c) ref_end tr.

(** [p] is the first point of [perf] at the minimum distance to [target]. *)
Definition first_nearest (target : date) (perf : list point) (p : point) : Prop :=
  exists l1 l2,
    perf = l1 ++ p :: l2
    /\ Forall (fun q => days_apart (fst p) target < days_apart (fst q) target) l1
    /\ Forall (fun q => days_apart (fst p) target <= days_apart (fst q) target) l2.

(** The normalized point of a raw one, in the words of the specification. *)
Definition normalize (r : raw_point) : point :=
  let '(y, m, dd, v) := r in (Date.mk y (m + 1) dd, v).

Definition valid_raw (r : raw_point) : bool :=
  let '(y, m, dd, _) := r in Date.valid y (m + 1) dd.

(** The users of a cache that have a non-empty history, in cache order. *)
Definition with_history (l : list entry) : list (string * list raw_point) :=
  omap (fun e => match snd e with
                 | Some (x :: r) => Some (fst e, x :: r)
                 | _ => None
                 end) l.

Definition ymd (y m dd : Z) : date := Date.mk y m dd.

(** The state of the world after [data.append(e)] and [save(filename, data)]. *)
Definition committed {Env} (filename : string) (e : entry) (w : world Env) : world Env :=
  mkWorld (env w) (data w ++ [e])
          (<[filename := CacheFile (data w ++ [e])]> (disk w))
          (trace w ++ [Saved filename (CacheFile (data w ++ [e]))]).

(** The progress line that ends an iteration, every tenth user checked. *)
Definition progress {Env} (c : counters) (w : world Env) : world Env :=
  if checked c mod 10 =? 0 then
    emit (Log Debug (Progress (checked c) (withdata c) (cached c)
                              (Z.of_nat (length (data w))))) w
  else w.

(** The counters after a cache hit on [p], and after a miss resolved to [h]. *)
Definition hit (c : counters) (p : option (list raw_point)) : counters :=
  mkCounters (checked c + 1) (cached c + 1)
             (if truthy_perf p then withdata c + 1 else withdata c).

Definition miss (c : counters) (h : option (list raw_point)) : counters :=
  mkCounters (checked c + 1) (cached c)
             (if truthy_perf h then withdata c + 1 else withdata c).

(** The users an execution of the loop gets to examine: those met while
    the count of checked users is below the limit. *)
Fixpoint examined (num : Z) (users : list string) (checked : Z) : list string :=
  match users with
  | [] => []
  | user :: rest =>
      if num <=? checked then [] else user :: examined num rest (checked + 1)
  end.

(** The successive contents written to the cache file while the entries
    [new] are added, one by one, to a cache that holds [base]. *)
Fixpoint snapshots (filename : string) (base new : list entry)
  : list (string * file) :=
  match new with
  | [] => []
  | e :: rest =>
      (filename, CacheFile (base ++ [e])) :: snapshots filename (base ++ [e]) rest
  end.

(** A rating history without a track named "Puzzles". *)
Definition no_puzzles (history : list track) : Prop :=
  Forall (fun h => Track.name h <> "Puzzles"%string) history.

(** A remote service that answers from a script, one reply per request. *)
Definition scripted (user : string) (script : list (outcome (list track)))
  : outcome (list track) * list (outcome (list track)) :=
  match script with
  | reply :: rest => (reply, rest)
  | [] => (Raise (OtherException "no reply"), [])
  end.

(** A first run: empty cache, empty disk, nothing traced yet. *)
Definition blank {Env} (e : Env) : world Env := mkWorld e [] ∅ [].

(** Two worlds that differ by events only: nothing appended to the cache,
    nothing written. *)
Definition quiet {Env} (w w' : world Env) : Prop :=
  data w' = data w /\ disk w' = disk w /\ saves (trace w') = saves (trace w).

(** What the loop has made durable between two worlds: the entries [new]
    appended to the cache, each written with all the entries before it, and
    the file holding the whole cache as soon as one entry was appended. *)
Definition persisted {Env} (filename : string) (w w' : world Env) : Prop :=
  exists new,
    data w' = data w ++ new
    /\ saves (trace w') = saves (trace w) ++ snapshots filename (data w) new
    /\ (new = [] -> disk w' = disk w)
    /\ (new <> [] -> disk w' = <[filename := CacheFile (data w')]> (disk w)).

(** A user in the cache stays in it, with the same entry, and is not
    requested from the remote service. *)
Definition settled {Env} (user : string) (w w' : world Env) : Prop :=
  lookup_user user (data w) <> None ->
  lookup_user user (data w') = lookup_user user (data w)
  /\ exists evs, trace w' = trace w ++ evs /\ Request user ∉ evs.

(** Nothing asked of the remote service, nothing changed in the cache. *)
Definition offline {Env} (w w' : world Env) : Prop :=
  env w' = env w /\ data w' = data w /\ disk w' = disk w
  /\ requests (trace w') = requests (trace w).

(** The raw point a normalized one comes from: the month goes back to its
    zero-based form. *)
Definition raw_of (p : point) : raw_point :=
  (Date.year (fst p), Date.month (fst p) - 1, Date.day (fst p), snd p).

(** The events that separate two worlds hold at most [r] requests, [s]
    sleeps, each of 61 seconds, and [v] writes. *)
Definition spent {Env} (r s v : nat) (w w' : world Env) : Prop :=
  exists evs,
    trace w' = trace w ++ evs
    /\ (length (requests evs) <= r)%nat
    /\ (length (sleeps evs) <= s)%nat
    /\ Forall (fun e => e = Sleep 61) (sleeps evs)
    /\ (length (saves evs) <= v)%nat.

(** At most the cost of [k] iterations of the fetch loop: two requests, one
    sleep and one write for each. *)
Definition cost {Env} (k : nat) (w w' : world Env) : Prop :=
  spent (2 * k) k k w w'.

(** ** [analyze]: the deltas and its inner function [period] *)

(** A tuple of [sample.json] as [analyze] reads it: four scores. *)
Definition scores : Type := Z * Z * Z * Z.

(** [[s-e for (s, e, _, _) in values]] and [[s-e for (_, _, s, e) in values]] *)
Definition deltas (values : list scores) : list Z :=
  map (fun x => let '(s, e, _, _) := x in s - e) values.

Definition ref_deltas (values : list scores) : list Z :=
  map (fun x => let '(_, _, s, e) := x in s - e) values.

Record tally := mkTally {
  total : Z; increased : Z; decreased : Z; inc_sum : Z; dec_sum : Z
}.

(** One iteration of [for d in ds] in [period]. *)
Definition period_step (a : tally) (d : Z) : tally :=
  let total' := total a + d in
  if 0 <? d then
    mkTally total' (increased a + 1) (decreased a) (inc_sum a + d) (dec_sum a)
  else if d <? 0 then
    mkTally total' (increased a) (decreased a + 1) (inc_sum a) (dec_sum a + d)
  else
    mkTally total' (increased a) (decreased a) (inc_sum a) (dec_sum a).

Definition period_loop (ds : list Z) : tally :=
  fold_left period_step ds (mkTally 0 0 0 0 0).

Section Period.

(** Python's floats are left abstract: [truediv a b] is [a / b] on integers
    with [b] other than 0, and [int_of x] is [int(x)]. *)
Variable float : Type.
Variable truediv : Z -> Z -> float.
Variable int_of : float -> Z.

(** [period(ds)]; [None] stands for the [ZeroDivisionError]. *)
Definition period (ds : list Z) : option (Z * float * Z * float * Z) :=
  let a := period_loop ds in
  let n := Z.of_nat (length ds) in
  if (n =? 0) || (increased a =? 0) || (decreased a =? 0) then None
  else Some (int_of (truediv (total a) n),
             truediv (increased a) n,
             int_of (truediv (inc_sum a) (increased a)),
             truediv (decreased a) n,
             int_of (truediv (dec_sum a) (decreased a))).

End Period.

(** The sum of a list of integers. *)
Definition sum (ds : list Z) : Z := fold_right Z.add 0 ds.

(** Its strictly positive and its strictly negative elements. *)
Definition positives (ds : list Z) : list Z := List.filter (fun d => 0 <? d) ds.
Definition negatives (ds : list Z) : list Z := List.filter (fun d => d <? 0) ds.

(** ** Finding the candidates: [get_tournament_users], [fetch_tournament_users]
    and [get_users] *)

Module Tournament.
(** A tournament as the remote service lists it; only its [id] is read. *)
Record tournament := mk { id : string }.
End Tournament.
Abbreviation tournament := Tournament.tournament.

Module Result.
(** A line of a tournament's results; only its [username] is read. *)
Record result := mk { username : string }.
End Result.
Abbreviation result := Result.result.

(** The log lines of these three functions and of the script. *)
Inductive note :=
| FetchingTournaments
| GotUsers (n : Z)
| ReadUsers (n : Z)
| SavedUsers (n : Z)
| ReadPerf (n : Z).

(** What happens while they run: an event of the world, or one of their
    log lines. *)
Inductive step :=
| Core (e : event)
| Noted (lvl : level) (msg : note).

Definition request_of (x : step) : option string :=
  match x with Core (Request what) => Some what | _ => None end.

(** [set([r["username"] for r in results])] *)
Definition usernames (results : list result) : gset string :=
  list_to_set (map Result.username results).

(** The exception of a call that lacks a positional argument. *)
Definition TypeError : exn := OtherException "TypeError".

Section Candidates.

(** The remote service and the file system these functions read:
    [client.tournaments.get()], a dictionary whose values are lists of
    tournaments; [client.tournaments.stream_results(id)]; and
    [json.load] of the file of user names, which raises when the file is
    missing or unreadable. *)
Variable Env : Type.
Variable tournaments_get : Env -> outcome (list (string * list tournament)) * Env.
Variable stream_results : string -> Env -> outcome (list result) * Env.
Variable read_users : string -> Env -> outcome (list string) * Env.

Record session := mkSession {
  world_of : world Env;
  journal : list step
}.

Definition SM (A : Type) : Type := session -> outcome A * session.

Definition sret {A} (a : A) : SM A := fun s => (Ret a, s).

Definition sbind {A B} (m : SM A) (k : A -> SM B) : SM B :=
  fun s =>
    match m s with
    | (Ret a, s1) => k a s1
    | (Raise e, s1) => (Raise e, s1)
    end.

Definition sraise {A} (e : exn) : SM A := fun s => (Raise e, s).

(** A computation of the world, run inside a session: the events it adds to
    the trace are entered in the journal. *)
Definition lift {A} (m : M Env A) : SM A :=
  fun s =>
    let '(o, w') := m (world_of s) in
    (o, mkSession w'
          (journal s ++ map Core (drop (length (trace (world_of s))) (trace w')))).

Definition noted (lvl : level) (msg : note) : SM unit :=
  fun s => (Ret tt, mkSession (world_of s) (journal s ++ [Noted lvl msg])).

(** The loop [for t in tstate]. *)
Fixpoint crawl_tournaments (tstate : list tournament) (users : gset string)
  : SM (gset string) :=
  match tstate with
  | [] => sret users
  | t :: rest =>
      sbind (lift (retry (call (Tournament.id t) (stream_results (Tournament.id t)))))
        (fun results =>
           let users' := users ∪ usernames results in
           sbind (noted Debug (GotUsers (Z.of_nat (size users')))) (fun _ =>
           crawl_tournaments rest users'))
  end.

(** The loop [for tstate in tournaments.values()]. *)
Fixpoint crawl_states (states : list (string * list tournament)) (users : gset string)
  : SM (gset string) :=
  match states with
  | [] => sret users
  | (_, tstate) :: rest =>
      sbind (crawl_tournaments tstate users) (crawl_states rest)
  end.

(** [get_tournament_users]; [list(users)] enumerates the set in an order
    that Python leaves unspecified, here the one of [elements]. *)
Definition get_tournament_users : SM (list string) :=
  sbind (noted Debug FetchingTournaments) (fun _ =>
  sbind (lift (retry (call "tournaments" tournaments_get))) (fun tournaments =>
  sbind (crawl_states tournaments ∅) (fun users =>
  sret (elements users)))).

(** [fetch_tournament_users]: the call [save(users)] lacks the [data]
    argument of [save(path, data)] and raises before [save] runs. *)
Definition fetch_tournament_users (filename : string) : SM (list string) :=
  sbind get_tournament_users (fun users =>
  sbind (sraise TypeError) (fun _ : unit =>
  sbind (noted Info (SavedUsers (Z.of_nat (length users)))) (fun _ =>
  sret users))).

(** [json.load] of the file of user names. *)
Definition load_users (filename : string) : SM (list string) :=
  fun s =>
    let w := world_of s in
    let '(r, e) := read_users filename (env w) in
    (r, mkSession (mkWorld e (data w) (disk w) (trace w)) (journal s)).

Definition get_users (filename : string) (cached_only : bool) : SM (list string) :=
  fun s =>
    match sbind (load_users filename) (fun users =>
          sbind (noted Info (ReadUsers (Z.of_nat (length users)))) (fun _ =>
          sret users)) s with
    | (Ret users, s1) => (Ret users, s1)
    | (Raise e, s1) =>
        if cached_only then (Raise e, s1) else fetch_tournament_users filename s1
    end.

End Candidates.

Arguments session Env : clear implicits.
Arguments mkSession {Env} _ _.
Arguments world_of {Env} _.
Arguments journal {Env} _.
Arguments SM Env A : clear implicits.
Arguments sret {Env A} _ _.
Arguments sbind {Env A B} _ _ _.
Arguments sraise {Env A} _ _.
Arguments lift {Env A} _ _.
Arguments noted {Env} _ _ _.
Arguments crawl_tournaments {Env} _ _ _ _.
Arguments crawl_states {Env} _ _ _ _.
Arguments get_tournament_users {Env} _ _ _.
Arguments fetch_tournament_users {Env} _ _ _ _.
Arguments load_users {Env} _ _ _.
Arguments get_users {Env} _ _ _ _ _ _.

(** ** The script *)

Inductive command := Fetch | Filter | Stats.

(** What [parseargs] returns. *)
Record arguments := mkArguments {
  command_of : command;
  userfile : string;
  perffile : string;
  num_users : Z;
  start_date : date;
  end_date : date;
  ref_start_date : date;
  ref_end_date : date
}.

Definition FileNotFoundError : exn := OtherException "FileNotFoundError".
Definition ValueError : exn := OtherException "ValueError".

(** [len] of what [json.load] returned. *)
Definition json_length (f : file) : Z :=
  match f with
  | CacheFile d => Z.of_nat (length d)
  | SampleFile v => Z.of_nat (length v)
  end.

(** The loaded value taken as a list of [(user, perf)] pairs, as the loops
    of [parse_perf] and [fetch_perf] unpack it: a non-empty list of
    four-element tuples does not unpack. *)
Definition as_perf (f : file) : outcome (list entry) :=
  match f with
  | CacheFile d => Ret d
  | SampleFile [] => Ret []
  | SampleFile (_ :: _) => Raise ValueError
  end.

Definition OverflowError : exn := OtherException "OverflowError".

(** [datetime.date] converts its three arguments to C [int]s before it
    checks their ranges. *)
Definition c_int (z : Z) : bool := (-2147483648 <=? z) && (z <=? 2147483647).

(** The three arguments of [datetime.date(d[0], d[1] + 1, d[2])] fit. *)
Definition fits (r : raw_point) : bool :=
  let '(y, m, dd, _) := r in c_int y && c_int (m + 1) && c_int dd.

(** [parse_perf] once more, with the exception that ends it: the first
    [datetime.date] call that fails, in the order of the two
    comprehensions, raises [OverflowError] when an argument does not fit a
    C [int], and the [ValueError] of the range checks otherwise. *)
Module Raising.

Definition make (y m d : Z) : outcome date :=
  if c_int y && c_int m && c_int d then
    if Date.valid y m d then Ret (Date.mk y m d) else Raise ValueError
  else Raise OverflowError.

Definition parse_point (d : raw_point) : outcome point :=
  let '(y, m, dd, v) := d in
  match make y (m + 1) dd with
  | Ret a => Ret (a, v)
  | Raise e => Raise e
  end.

Fixpoint parse_points (perf : list raw_point) : outcome (list point) :=
  match perf with
  | [] => Ret []
  | d :: rest =>
      match parse_point d with
      | Raise e => Raise e
      | Ret p =>
          match parse_points rest with
          | Raise e => Raise e
          | Ret ps => Ret (p :: ps)
          end
      end
  end.

Fixpoint parse_perf (data : list entry) : outcome (list (string * list point)) :=
  match data with
  | [] => Ret []
  | (user, perf) :: rest =>
      if truthy_perf perf then
        match parse_points (default [] perf) with
        | Raise e => Raise e
        | Ret ps =>
            match parse_perf rest with
            | Raise e => Raise e
            | Ret out => Ret ((user, ps) :: out)
            end
        end
      else parse_perf rest
  end.

End Raising.

(** Every cached point of a history fits. *)
Definition all_fit (perf : option (list raw_point)) : Prop :=
  Forall (fun r => fits r = true) (default [] perf).

(** An exception of [datetime.date]: one of the two, and the [ValueError]
    when the arguments fit. *)
Definition date_exception (fitting : Prop) (e : exn) : Prop :=
  (e = ValueError \/ e = OverflowError) /\ (fitting -> e = ValueError).

Section Script.

Variable Env : Type.

(** [analyze], which plots, is left abstract: it is given what
    [sample.json] holds, the four dates and the two tolerances. *)
Variable analyze :
  file -> date -> date -> timedelta -> date -> date -> timedelta -> SM Env unit.

(** [with open(path, "r") as f: json.load(f)] *)
Definition read_json (path : string) : SM Env file :=
  fun s =>
    match disk (world_of s) !! path with
    | Some f => (Ret f, s)
    | None => (Raise FileNotFoundError, s)
    end.

(** The script, from the parsed arguments on. In the [fetch] branch the
    call [get_users(args.userfile)] lacks the [cached_only] argument of
    [get_users(filename, cached_only)] and raises; the shuffle and the call
    of [fetch_perf] that follow it are never reached. In the [filter]
    branch an exception of [parse_perf] ends the script as it was raised. *)
Definition main (args : arguments) : SM Env unit :=
  let tolerance := 7 in
  let ref_tolerance := 7 in
  sbind (read_json (perffile args)) (fun perf =>
  sbind (noted Info (ReadPerf (json_length perf))) (fun _ =>
  match command_of args with
  | Fetch => sraise TypeError
  | Filter =>
      match as_perf perf with
      | Raise e => sraise e
      | Ret d =>
          match Raising.parse_perf d with
          | Raise e => sraise e
          | Ret parsed =>
              sbind (lift (filter_perf parsed (start_date args) (end_date args)
                             tolerance (ref_start_date args) (ref_end_date args)
                             ref_tolerance))
                    (fun _ => sret tt)
          end
      end
  | Stats =>
      sbind (read_json "sample.json") (fun values =>
      analyze values (start_date args) (end_date args) tolerance
              (ref_start_date args) (ref_end_date args) ref_tolerance)
  end)).

End Script.

Arguments read_json {Env} _ _.
Arguments main {Env} _ _ _.

(** All the tournaments of a listing, in the order they are crawled. *)
Definition all_tournaments (states : list (string * list tournament))
  : list tournament :=
  concat (map snd states).

(** The user names gathered from the tournaments [ts], added to [users],
    when the results of a tournament are a function of its id. *)
Definition gathered (results_of : string -> list result) (ts : list tournament)
    (users : gset string) : gset string :=
  fold_left (fun acc t => acc ∪ usernames (results_of (Tournament.id t))) ts users.

(** A service that lists two tournaments and always answers. *)
Definition two_tournaments (e : unit)
  : outcome (list (string * list tournament)) * unit :=
  (Ret [("started"%string, [Tournament.mk "t1"]);
        ("finished"%string, [Tournament.mk "t2"])], e).

Definition two_results (tid : string) : list result :=
  if decide (tid = "t1"%string)
  then [Result.mk "alice"; Result.mk "bob"]
  else [Result.mk "bob"; Result.mk "carol"].

Definition no_user_file (filename : string) (e : unit)
  : outcome (list string) * unit :=
  (Raise (OtherException "FileNotFoundError"), e).

(** ** The fetch loop against a service whose answers depend on the user only *)

(** What [get_puzzle_history] makes of the service's answer for a user,
    when the retry after a 429 gets the same answer again. *)
Definition answer (reply : string -> outcome (list track)) (user : string)
  : outcome (option (list raw_point)) :=
  match reply user with
  | Ret history => Ret (puzzle_points history)
  | Raise (ResponseError status_code) =>
      if status_code =? 404 then Ret None
      else Raise (ResponseError status_code)
  | Raise (OtherException _) => Ret None
  end.

(** The cache the loop of [fetch_perf] ends with, and the exception it ends
    with if any, as a function of the candidates, the number of users
    checked so far and the cache. *)
Fixpoint replay (reply : string -> outcome (list track)) (num : Z)
    (users : list string) (checked : Z) (cache : list entry)
  : option exn * list entry :=
  match users with
  | [] => (None, cache)
  | user :: rest =>
      if num <=? checked then (None, cache)
      else
        match lookup_user user cache with
        | Some _ => replay reply num rest (checked + 1) cache
        | None =>
            match answer reply user with
            | Ret h => replay reply num rest (checked + 1) (cache ++ [(user, h)])
            | Raise e => (Some e, cache)
            end
        end
  end.

(** The exception an outcome carries. *)
Definition raised {A} (o : outcome A) : option exn :=
  match o with Ret _ => None | Raise e => Some e end.

(** A service whose answers depend on the user only. *)
Definition steady_reply (user : string) : outcome (list track) :=
  if decide (user = "alice"%string) then Ret [Track.mk "Puzzles" [(2020, 2, 4, 1500)]]
  else if decide (user = "bob"%string) then Raise (ResponseError 404)
  else Raise (OtherException "timed out").

Definition steady (user : string) (e : unit) : outcome (list track) * unit :=
  (steady_reply user, e).

(** ** The sampler *)

Lemma days_apart_sym a b : days_apart a b = days_apart b a.
Proof. unfold days_apart, Date.sub. lia. Qed.

Lemma closer_cases target best p :
  (days_apart (fst p) target < days_apart (fst best) target
   /\ closer target best p = (fst p, Some (snd p)))
  \/ (days_apart (fst best) target <= days_apart (fst p) target
      /\ closer target best p = best).
Proof.
  unfold closer. rewrite (days_apart_sym (fst best)). unfold days_apart.
  destruct (Z.ltb_spec (Z.abs (Date.sub (fst p) target))
                       (Z.abs (Date.sub target (fst best)))); [left|right]; auto.
Qed.

Lemma scan_fold start end_ ref_start ref_end perf c :
  fold_left (scan_step start end_ ref_start ref_end) perf c
  = mkClosests (fold_left (closer start) perf (closest_start c))
               (fold_left (closer ref_start) perf (closest_ref_start c))
               (fold_left (closer end_) perf (closest_end c))
               (fold_left (closer ref_end) perf (closest_ref_end c)).
Proof.
  revert c. induction perf as [|p perf IH]; intros c; simpl.
  - now destruct c.
  - now rewrite IH.
Qed.

Lemma scan_nearest start end_ ref_start ref_end perf :
  scan start end_ ref_start ref_end perf
  = mkClosests (nearest start perf) (nearest ref_start perf)
               (nearest end_ perf) (nearest ref_end perf).
Proof. unfold scan. now rewrite scan_fold. Qed.

Lemma nearest_snoc target perf p :
  nearest target (perf ++ [p]) = closer target (nearest target perf) p.
Proof. unfold nearest. now rewrite fold_left_app. Qed.

(** What the scan for one target yields: the sentinel when no point is
    strictly closer to the target than [date.min] is, else the first point
    at the minimum distance. *)
Lemma nearest_cases target perf :
  (nearest target perf = (Date.min, None)
   /\ Forall (fun q => days_apart Date.min target <= days_apart (fst q) target) perf)
  \/ (exists p, first_nearest target perf p
      /\ days_apart (fst p) target < days_apart Date.min target
      /\ nearest target perf = (fst p, Some (snd p))).
Proof.
  induction perf as [|x perf IH] using rev_ind.
  - left. split; [reflexivity | constructor].
  - rewrite nearest_snoc.
    destruct (closer_cases target (nearest target perf) x) as [[Hx Hc] | [Hx Hc]];
      rewrite Hc; clear Hc;
      destruct IH as [[Hn Hall] | (p & (l1 & l2 & Heq & H1 & H2) & Hlt & Hn)];
      rewrite Hn in *; simpl in Hx; try subst perf.
    + right. exists x. split; [|split; [exact Hx | reflexivity]].
      exists perf, []. split; [reflexivity | split; [|constructor]].
      eapply Forall_impl; [exact Hall | simpl; intros; lia].
    + right. exists x. split; [|split; [lia | reflexivity]].
      exists (l1 ++ p :: l2), []. split; [reflexivity | split; [|constructor]].
      apply Forall_app. split; [|constructor].
      * eapply Forall_impl; [exact H1 | simpl; intros; lia].
      * exact Hx.
      * eapply Forall_impl; [exact H2 | simpl; intros; lia].
    + left. split; [reflexivity |].
      apply Forall_app. split; [exact Hall | repeat constructor; exact Hx].
    + right. exists p. split; [|split; [exact Hlt | reflexivity]].
      exists l1, (l2 ++ [x]). split; [now rewrite <- app_assoc | split; [exact H1 |]].
      apply Forall_app. split; [exact H2 | repeat constructor; exact Hx].
Qed.

Lemma first_nearest_least target perf p q :
  first_nearest target perf p -> q ∈ perf ->
  days_apart (fst p) target <= days_apart (fst q) target.
Proof.
  intros (l1 & l2 & -> & H1 & H2) Hq.
  rewrite Forall_forall in H1, H2.
  apply elem_of_app in Hq as [Hq | Hq]; [specialize (H1 _ Hq); lia |].
  apply elem_of_cons in Hq as [-> | Hq]; [lia | exact (H2 _ Hq)].
Qed.

Lemma first_nearest_elem target perf p : first_nearest target perf p -> p ∈ perf.
Proof. intros (l1 & l2 & -> & _). apply elem_of_app. right. left. Qed.

Lemma first_nearest_unique target perf p p' :
  first_nearest target perf p -> first_nearest target perf p' -> p = p'.
Proof.
  intros (l1 & l2 & -> & H1 & H2) (l1' & l2' & Heq & H1' & H2').
  revert l1' Heq H1'. induction l1 as [|a l1 IH]; intros [|a' l1'] Heq H1';
    simpl in Heq; inversion Heq; subst.
  - reflexivity.
  - apply Forall_cons in H1' as [Hlt _].
    rewrite Forall_forall in H2.
    assert (p' ∈ l1' ++ p' :: l2') as Hin by (apply elem_of_app; right; left).
    specialize (H2 _ Hin). lia.
  - apply Forall_cons in H1 as [Hlt _].
    rewrite Forall_forall in H2'.
    assert (p ∈ l1 ++ p :: l2) as Hin by (apply elem_of_app; right; left).
    specialize (H2' _ Hin). lia.
  - apply Forall_cons in H1 as [_ H1]. apply Forall_cons in H1' as [_ H1'].
    eapply IH; eauto.
Qed.

Lemma accepts_checks start end_ tolerance ref_start ref_end ref_tolerance c :
  accepts start end_ tolerance ref_start ref_end ref_tolerance c
  = forallb check (checks start end_ tolerance ref_start ref_end ref_tolerance c).
Proof.
  unfold accepts, checks, check. simpl.
  repeat match goal with |- context [has_score ?x] => destruct (has_score x) end;
    repeat match goal with |- context [in_tolerance ?x ?y ?z] =>
                             destruct (in_tolerance x y z) end; reflexivity.
Qed.

Lemma checks_scan start end_ tolerance ref_start ref_end ref_tolerance perf k :
  k ∈ checks start end_ tolerance ref_start ref_end ref_tolerance
        (scan start end_ ref_start ref_end perf) ->
  exists target tol, k = (nearest target perf, target, tol).
Proof.
  rewrite scan_nearest. unfold checks. simpl. intros Hk.
  repeat (apply elem_of_cons in Hk as [-> | Hk]; [eauto |]).
  now apply elem_of_nil in Hk.
Qed.

Lemma filter_values_app start end_ tolerance ref_start ref_end ref_tolerance l1 l2 :
  filter_values start end_ tolerance ref_start ref_end ref_tolerance (l1 ++ l2)
  = filter_values start end_ tolerance ref_start ref_end ref_tolerance l1
    ++ filter_values start end_ tolerance ref_start ref_end ref_tolerance l2.
Proof.
  induction l1 as [|[u perf] l1 IH]; simpl; [reflexivity |].
  destruct (accepts _ _ _ _ _ _ _); simpl; now rewrite IH.
Qed.

(** C1, evaluated on the code. With a study tolerance of 7 days and a
    reference tolerance of 3 days, a user whose matches are exact except for
    the study end date, matched 5 days away, is within the tolerances as the
    specification associates them, and the condition of [filter_perf]
    rejects the user: it compares the end-date match with the reference
    tolerance. Symmetrically, a user whose reference start date is matched
    5 days away is accepted, compared with the study tolerance. *)
Theorem filter_perf_swaps_tolerances :
  let start := ymd 2020 3 5 in
  let end_ := ymd 2020 4 5 in
  let ref_start := ymd 2020 2 1 in
  let ref_end := ymd 2020 3 1 in
  let late_end :=
    [(ymd 2020 2 1, 100); (ymd 2020 3 1, 120); (ymd 2020 3 5, 110); (ymd 2020 4 10, 150)] in
  let late_ref_start :=
    [(ymd 2020 2 6, 100); (ymd 2020 3 1, 120); (ymd 2020 3 5, 110); (ymd 2020 4 5, 150)] in
  accepts_as_specified start end_ 7 ref_start ref_end 3
    (scan start end_ ref_start ref_end late_end) = true
  /\ filter_values start end_ 7 ref_start ref_end 3 [("A"%string, late_end)] = []
  /\ accepts_as_specified start end_ 7 ref_start ref_end 3
       (scan start end_ ref_start ref_end late_ref_start) = false
  /\ filter_values start end_ 7 ref_start ref_end 3 [("B"%string, late_ref_start)]
     = [(Some 110, Some 150, Some 100, Some 120)].
Proof. vm_compute. repeat split. Qed.

(** C2, as amended. The scan replaces its current candidate only by a point
    strictly closer to the target, and an equally distant point leaves it in
    place. The first point at the minimum distance is the one selected
    whenever that distance is strictly smaller than the distance from the
    target to the initial candidate's date, [date.min]; otherwise no point is
    selected and the initial candidate [(date.min, None)] remains. The four
    candidates of [filter_perf] are such scans, one per target. *)
Theorem scan_selects_first_nearest :
  forall target perf,
    (forall best p, closer target best p <> best ->
       days_apart (fst p) target < days_apart (fst best) target)
    /\ (forall best p, days_apart (fst best) target <= days_apart (fst p) target ->
          closer target best p = best)
    /\ (forall p, first_nearest target perf p ->
          days_apart (fst p) target < days_apart Date.min target ->
          nearest target perf = (fst p, Some (snd p)))
    /\ (forall p, first_nearest target perf p ->
          days_apart Date.min target <= days_apart (fst p) target ->
          nearest target perf = (Date.min, None))
    /\ (forall start end_ ref_start ref_end,
          scan start end_ ref_start ref_end perf
          = mkClosests (nearest start perf) (nearest ref_start perf)
                       (nearest end_ perf) (nearest ref_end perf)).
Proof.
  intros target perf. repeat split.
  - intros best p Hne.
    destruct (closer_cases target best p) as [[H _] | [_ H]]; [exact H | contradiction].
  - intros best p Hle.
    destruct (closer_cases target best p) as [[H _] | [_ H]]; [lia | exact H].
  - intros p Hp Hlt.
    destruct (nearest_cases target perf) as [[_ Hall] | (p0 & Hp0 & _ & Hn)].
    + rewrite Forall_forall in Hall.
      specialize (Hall _ (first_nearest_elem _ _ _ Hp)). lia.
    + now rewrite (first_nearest_unique _ _ _ _ Hp Hp0).
  - intros p Hp Hle.
    destruct (nearest_cases target perf) as [[Hn _] | (p0 & Hp0 & Hlt & _)].
    + exact Hn.
    + rewrite (first_nearest_unique _ _ _ _ Hp Hp0) in Hle. lia.
  - intros. apply scan_nearest.
Qed.

Lemma scan_selects_first_nearest_witness :
  nearest (ymd 2020 3 5)
    [(ymd 2020 2 1, 100); (ymd 2020 3 2, 110); (ymd 2020 3 8, 130)]
  = (ymd 2020 3 2, Some 110).
Proof.
  destruct (scan_selects_first_nearest (ymd 2020 3 5)
              [(ymd 2020 2 1, 100); (ymd 2020 3 2, 110); (ymd 2020 3 8, 130)])
    as (_ & _ & H & _).
  apply (H (ymd 2020 3 2, 110)).
  - exists [(ymd 2020 2 1, 100)], [(ymd 2020 3 8, 130)].
    split; [reflexivity |].
    split; repeat constructor; vm_compute; congruence.
  - vm_compute. reflexivity.
Defined.

(** C2 as stated fails on the code: for the target 0001-01-03 the only
    point of the series, five days later, is the first point at the minimum
    distance, and the scan does not select it, because [date.min] is closer
    to the target than the point is. *)
Lemma first_nearest_not_selected :
  let target := ymd 1 1 3 in
  let perf := [(ymd 1 1 8, 1500)] in
  first_nearest target perf (ymd 1 1 8, 1500)
  /\ closest_start (scan target target target target perf) = (Date.min, None)
  /\ closest_start (scan target target target target perf) <> (ymd 1 1 8, Some 1500).
Proof.
  split; [| split; [vm_compute; reflexivity | vm_compute; congruence]].
  exists [], []. split; [reflexivity | split; constructor].
Qed.

Lemma in_tolerance_le c target tol :
  in_tolerance c target tol = true <-> days_apart (fst c) target <= tol.
Proof. unfold in_tolerance, days_apart. apply Z.leb_le. Qed.

Lemma nearest_candidate_distance target perf p :
  p ∈ perf ->
  Forall (fun q => days_apart (fst p) target <= days_apart (fst q) target) perf ->
  let c := nearest target perf in
  days_apart (fst c) target <= days_apart (fst p) target
  /\ (has_score c = true -> days_apart (fst c) target = days_apart (fst p) target).
Proof.
  intros Hp Hmin c. subst c.
  destruct (nearest_cases target perf) as [[Hn Hall] | (p0 & Hp0 & _ & Hn)];
    rewrite Hn; simpl.
  - rewrite Forall_forall in Hall. split; [exact (Hall _ Hp) | discriminate].
  - pose proof (first_nearest_least _ _ _ _ Hp0 Hp).
    rewrite Forall_forall in Hmin.
    pose proof (Hmin _ (first_nearest_elem _ _ _ Hp0)). split; [lia | intros; lia].
Qed.

(** C8. Take any of the four checks of [filter_perf] on a user's series:
    the candidate found for a target date and the tolerance it is compared
    with. When the user's nearest point to that target is exactly [tol] days
    away, the comparison with the tolerance holds, the check passes as soon
    as the candidate carries a score, and, the other checks passing, the
    user is accepted: [filter_perf] returns the user's four scores. When the
    nearest point is [tol + 1] days away the check fails, the user is
    rejected and [filter_perf] returns nothing for them. The comparison is
    inclusive. *)
Theorem tolerance_boundary_inclusive :
  forall start end_ tolerance ref_start ref_end ref_tolerance user perf
         cand target tol p,
    (cand, target, tol)
      ∈ checks start end_ tolerance ref_start ref_end ref_tolerance
          (scan start end_ ref_start ref_end perf) ->
    p ∈ perf ->
    Forall (fun q => days_apart (fst p) target <= days_apart (fst q) target) perf ->
    (days_apart (fst p) target = tol ->
       in_tolerance cand target tol = true
       /\ (has_score cand = true -> check (cand, target, tol) = true)
       /\ (has_score cand = true ->
           (forall k,
               k ∈ checks start end_ tolerance ref_start ref_end ref_tolerance
                     (scan start end_ ref_start ref_end perf) ->
               k <> (cand, target, tol) -> check k = true) ->
           accepts start end_ tolerance ref_start ref_end ref_tolerance
             (scan start end_ ref_start ref_end perf) = true
           /\ filter_values start end_ tolerance ref_start ref_end ref_tolerance
                [(user, perf)]
              = [sample_of (scan start end_ ref_start ref_end perf)]))
    /\ (days_apart (fst p) target = tol + 1 ->
          check (cand, target, tol) = false
          /\ accepts start end_ tolerance ref_start ref_end ref_tolerance
               (scan start end_ ref_start ref_end perf) = false
          /\ filter_values start end_ tolerance ref_start ref_end ref_tolerance
               [(user, perf)] = [])
    /\ (in_tolerance cand target tol = true <-> days_apart (fst cand) target <= tol).
Proof.
  intros start end_ tolerance ref_start ref_end ref_tolerance user perf
         cand target tol p Hk Hp Hmin.
  destruct (checks_scan _ _ _ _ _ _ _ _ Hk) as (target' & tol' & Heq).
  inversion Heq; subst target' tol' cand.
  destruct (nearest_candidate_distance target perf p Hp Hmin) as [Hle Hscore].
  split; [| split].
  - intros Hd.
    assert (in_tolerance (nearest target perf) target tol = true) as Hin
        by (apply in_tolerance_le; lia).
    split; [exact Hin |].
    assert (has_score (nearest target perf) = true ->
            check (nearest target perf, target, tol) = true) as Hcheck.
    { intros Hs. unfold check. now rewrite Hs, Hin. }
    split; [exact Hcheck |]. intros Hs Hothers.
    assert (accepts start end_ tolerance ref_start ref_end ref_tolerance
              (scan start end_ ref_start ref_end perf) = true) as Hacc.
    { rewrite accepts_checks. apply forallb_forall. intros k Hin'.
      apply list_elem_of_In in Hin'.
      destruct (check k) eqn:E; [reflexivity |].
      rewrite (Hothers k Hin') in E; [discriminate |].
      intros ->. rewrite (Hcheck Hs) in E. discriminate. }
    split; [exact Hacc |]. simpl. now rewrite Hacc.
  - intros Hd.
    assert (check (nearest target perf, target, tol) = false) as Hc.
    { unfold check. destruct (has_score (nearest target perf)) eqn:Hs; [| reflexivity].
      simpl. apply not_true_is_false. rewrite in_tolerance_le.
      specialize (Hscore eq_refl). lia. }
    split; [exact Hc |].
    assert (accepts start end_ tolerance ref_start ref_end ref_tolerance
              (scan start end_ ref_start ref_end perf) = false) as Hacc.
    { rewrite accepts_checks. apply not_true_is_false. intros Hall.
      rewrite forallb_forall in Hall.
      apply list_elem_of_In in Hk. specialize (Hall _ Hk). congruence. }
    split; [exact Hacc |]. simpl. now rewrite Hacc.
  - apply in_tolerance_le.
Qed.

Lemma tolerance_boundary_inclusive_witness :
  let perf := [(ymd 2020 2 1, 100); (ymd 2020 3 1, 120); (ymd 2020 3 5, 110);
               (ymd 2020 4 12, 150)] in
  accepts (ymd 2020 3 5) (ymd 2020 4 5) 7 (ymd 2020 2 1) (ymd 2020 3 1) 7
    (scan (ymd 2020 3 5) (ymd 2020 4 5) (ymd 2020 2 1) (ymd 2020 3 1) perf) = true
  /\ filter_values (ymd 2020 3 5) (ymd 2020 4 5) 7 (ymd 2020 2 1) (ymd 2020 3 1) 7
       [("at"%string, perf)]
     = [(Some 110, Some 150, Some 100, Some 120)].
Proof.
  intros perf.
  destruct (tolerance_boundary_inclusive
              (ymd 2020 3 5) (ymd 2020 4 5) 7 (ymd 2020 2 1) (ymd 2020 3 1) 7
              "at"%string perf
              (closest_end (scan (ymd 2020 3 5) (ymd 2020 4 5) (ymd 2020 2 1)
                                 (ymd 2020 3 1) perf))
              (ymd 2020 4 5) 7 (ymd 2020 4 12, 150)) as (H & _ & _).
  - unfold checks. do 2 right. left.
  - do 3 right. left.
  - repeat constructor; vm_compute; congruence.
  - destruct H as (_ & _ & H); [vm_compute; reflexivity |].
    apply H; [vm_compute; reflexivity |].
    intros k Hk _. unfold checks in Hk.
    repeat (apply elem_of_cons in Hk as [-> | Hk]; [vm_compute; reflexivity |]).
    inversion Hk.
Defined.

Lemma check_fails_rejects start end_ tolerance ref_start ref_end ref_tolerance c k :
  k ∈ checks start end_ tolerance ref_start ref_end ref_tolerance c ->
  check k = false ->
  accepts start end_ tolerance ref_start ref_end ref_tolerance c = false.
Proof.
  intros Hk Hc. rewrite accepts_checks. apply not_true_is_false. intros Hall.
  rewrite forallb_forall in Hall. apply list_elem_of_In in Hk.
  specialize (Hall _ Hk). congruence.
Qed.

(** C10. Take any of the four checks of [filter_perf] on a user's series.
    When the candidate found for the target carries the score 0, or when
    the first point of the series at the minimum distance to the target
    has the value 0, the candidate is as falsy as the [None] of "no match
    found": the check fails whatever the distance and the tolerance, the
    condition rejects the user, and the user contributes nothing to the
    returned values. *)
Theorem zero_score_excluded :
  forall start end_ tolerance ref_start ref_end ref_tolerance
         before user perf after cand target tol,
    let c := scan start end_ ref_start ref_end perf in
    (cand, target, tol)
      ∈ checks start end_ tolerance ref_start ref_end ref_tolerance c ->
    snd cand = Some 0 \/ (exists day, first_nearest target perf (day, 0)) ->
    has_score cand = has_score (Date.min, None)
    /\ check (cand, target, tol) = false
    /\ accepts start end_ tolerance ref_start ref_end ref_tolerance c = false
    /\ filter_values start end_ tolerance ref_start ref_end ref_tolerance
         (before ++ (user, perf) :: after)
       = filter_values start end_ tolerance ref_start ref_end ref_tolerance
           (before ++ after).
Proof.
  intros start end_ tolerance ref_start ref_end ref_tolerance
         before user perf after cand target tol c Hk H0.
  assert (has_score cand = false) as Hs.
  { destruct H0 as [H0 | [day Hp]].
    - unfold has_score. now rewrite H0.
    - destruct (checks_scan _ _ _ _ _ _ _ _ Hk) as (target' & tol' & Heq).
      inversion Heq; subst target' tol' cand.
      destruct (nearest_cases target perf) as [[-> _] | (p0 & Hp0 & _ & ->)];
        [reflexivity |].
      now rewrite <- (first_nearest_unique _ _ _ _ Hp Hp0). }
  assert (check (cand, target, tol) = false) as Hc
      by (unfold check; now rewrite Hs).
  pose proof (check_fails_rejects _ _ _ _ _ _ _ _ Hk Hc) as Ha.
  split; [exact Hs | split; [exact Hc | split; [exact Ha |]]].
  rewrite !filter_values_app. simpl. fold c. now rewrite Ha.
Qed.

Lemma zero_score_excluded_witness :
  let perf := [(ymd 2020 2 1, 100); (ymd 2020 3 1, 120); (ymd 2020 3 5, 0); (ymd 2020 4 5, 150)] in
  Forall (fun k => in_tolerance (fst (fst k)) (snd (fst k)) (snd k) = true)
    (checks (ymd 2020 3 5) (ymd 2020 4 5) 7 (ymd 2020 2 1) (ymd 2020 3 1) 7
       (scan (ymd 2020 3 5) (ymd 2020 4 5) (ymd 2020 2 1) (ymd 2020 3 1) perf))
  /\ filter_values (ymd 2020 3 5) (ymd 2020 4 5) 7 (ymd 2020 2 1) (ymd 2020 3 1) 7
       ([] ++ ("A"%string, perf) :: [])
     = filter_values (ymd 2020 3 5) (ymd 2020 4 5) 7 (ymd 2020 2 1) (ymd 2020 3 1) 7
         ([] ++ []).
Proof.
  intros perf. split.
  - repeat constructor.
  - refine (proj2 (proj2 (proj2
      (zero_score_excluded (ymd 2020 3 5) (ymd 2020 4 5) 7 (ymd 2020 2 1)
         (ymd 2020 3 1) 7 [] "A"%string perf []
         (closest_start (scan (ymd 2020 3 5) (ymd 2020 4 5) (ymd 2020 2 1)
                              (ymd 2020 3 1) perf))
         (ymd 2020 3 5) 7 _ _)))).
    + left.
    + left. vm_compute. reflexivity.
Defined.

(** ** [parse_perf] *)

Lemma parse_point_spec r p :
  parse_point r = Some p <-> valid_raw r = true /\ p = normalize r.
Proof.
  destruct r as [[[y m] dd] v]. unfold parse_point, Date.make, valid_raw, normalize.
  destruct (Date.valid y (m + 1) dd); split.
  - intros [= <-]. auto.
  - intros [_ ->]. reflexivity.
  - discriminate.
  - intros [? _]. discriminate.
Qed.

Lemma parse_points_spec perf ps :
  parse_points perf = Some ps
  <-> Forall (fun r => valid_raw r = true) perf /\ ps = map normalize perf.
Proof.
  revert ps. induction perf as [|r perf IH]; intros ps; simpl.
  - split; [intros [= <-]; auto | intros [_ ->]; reflexivity].
  - destruct (parse_point r) as [p|] eqn:Hp.
    + apply parse_point_spec in Hp as [Hv ->].
      destruct (parse_points perf) as [qs|] eqn:Hq.
      * destruct (proj1 (IH qs) eq_refl) as [Hall ->]. split.
        -- intros [= <-]. auto.
        -- intros [_ ->]. reflexivity.
      * split; [discriminate |]. intros [Hall _].
        apply Forall_cons in Hall as [_ Hall].
        discriminate (proj2 (IH (map normalize perf)) (conj Hall eq_refl)).
    + split; [discriminate |]. intros [Hall _].
      apply Forall_cons in Hall as [Hv _].
      assert (parse_point r = Some (normalize r)) as Hs
          by (apply parse_point_spec; auto).
      congruence.
Qed.

Lemma parse_perf_skip user perf rest :
  truthy_perf perf = false -> parse_perf ((user, perf) :: rest) = parse_perf rest.
Proof. intros H. simpl. now rewrite H. Qed.

Lemma parse_perf_app l1 l2 :
  parse_perf (l1 ++ l2)
  = match parse_perf l1, parse_perf l2 with
    | Some o1, Some o2 => Some (o1 ++ o2)
    | _, _ => None
    end.
Proof.
  induction l1 as [|[u perf] l1 IH]; simpl.
  - now destruct (parse_perf l2).
  - destruct (truthy_perf perf); [| exact IH].
    destruct (parse_points (default [] perf)); [| reflexivity].
    rewrite IH. destruct (parse_perf l1), (parse_perf l2); reflexivity.
Qed.

(** C9. [parse_perf] returns a result exactly when every raw point of every
    user with a non-empty history names a calendar date once its month is
    shifted by one, and the result is then, in cache order, each such user
    with each of its raw points [(year, month0, day, value)] turned into
    [(date(year, month0 + 1, day), value)], in stored order. A user whose
    cached history is [None] or empty contributes nothing. *)
Theorem parse_perf_normalizes :
  (forall l out,
     parse_perf l = Some out
     <-> Forall (fun up => Forall (fun r => valid_raw r = true) (snd up)) (with_history l)
         /\ out = map (fun up => (fst up, map normalize (snd up))) (with_history l))
  /\ (forall y m dd v, normalize (y, m, dd, v) = (Date.mk y (m + 1) dd, v))
  /\ (forall before user after,
        parse_perf (before ++ (user, None) :: after) = parse_perf (before ++ after)
        /\ parse_perf (before ++ (user, Some []) :: after) = parse_perf (before ++ after)
        /\ with_history (before ++ (user, None) :: after) = with_history (before ++ after)
        /\ with_history (before ++ (user, Some []) :: after)
           = with_history (before ++ after)).
Proof.
  split; [| split].
  - induction l as [|[u perf] l IH]; intros out.
    + simpl. split; [intros [= <-]; auto | intros [_ ->]; reflexivity].
    + destruct perf as [[|x perf]|].
      * rewrite parse_perf_skip by reflexivity. apply IH.
      * change (with_history ((u, Some (x :: perf)) :: l))
          with ((u, x :: perf) :: with_history l).
        change (parse_perf ((u, Some (x :: perf)) :: l))
          with (match parse_points (x :: perf) with
                | None => None
                | Some ps => match parse_perf l with
                             | None => None
                             | Some o => Some ((u, ps) :: o)
                             end
                end).
        rewrite Forall_cons. cbn [fst snd map].
        destruct (parse_points (x :: perf)) as [ps|] eqn:Hps.
        -- apply parse_points_spec in Hps as [Hv ->].
           destruct (parse_perf l) as [o|] eqn:Ho.
           ++ destruct (proj1 (IH o) eq_refl) as [Hall ->]. split.
              ** intros [= <-]. auto.
              ** intros [_ ->]. reflexivity.
           ++ split; [discriminate |]. intros [[_ Hall] _].
              discriminate (proj2 (IH _) (conj Hall eq_refl)).
        -- split; [discriminate |]. intros [[Hv _] _].
           assert (parse_points (x :: perf) = Some (map normalize (x :: perf))) as Hs
               by (apply parse_points_spec; auto).
           congruence.
      * rewrite parse_perf_skip by reflexivity. apply IH.
  - reflexivity.
  - intros before user after. unfold with_history.
    rewrite !parse_perf_app, !omap_app. simpl. auto.
Qed.

Example parse_perf_run :
  parse_perf [("a"%string, Some [(2020, 1, 29, 1500); (2020, 0, 31, 1490)]);
              ("b"%string, None); ("c"%string, Some []);
              ("d"%string, Some [(2019, 11, 31, 1600)])]
  = Some [("a"%string, [(ymd 2020 2 29, 1500); (ymd 2020 1 31, 1490)]);
          ("d"%string, [(ymd 2019 12 31, 1600)])].
Proof. reflexivity. Qed.

Example parse_perf_raises :
  parse_perf [("a"%string, Some [(2020, 12, 1, 1500)])] = None.
Proof. reflexivity. Qed.

(** ** The collection code *)

Example throttled_then_found :
  fetch_perf scripted 10 "perf.json" ["alice"; "bob"]%string
    (blank [Raise (ResponseError 429);
            Ret [Track.mk "Blitz" []; Track.mk "Puzzles" [(2020, 2, 4, 1500)]];
            Raise (ResponseError 404)])
  = (Ret [("alice"%string, Some [(2020, 2, 4, 1500)]); ("bob"%string, None)],
     mkWorld []
       [("alice"%string, Some [(2020, 2, 4, 1500)]); ("bob"%string, None)]
       {[ "perf.json"%string :=
            CacheFile [("alice"%string, Some [(2020, 2, 4, 1500)]);
                       ("bob"%string, None)] ]}
       [Request "alice"; Log Info RateLimited; Sleep 61; Request "alice";
        Saved "perf.json" (CacheFile [("alice"%string, Some [(2020, 2, 4, 1500)])]);
        Request "bob"; Log Warning (UserMissing "bob");
        Saved "perf.json" (CacheFile [("alice"%string, Some [(2020, 2, 4, 1500)]);
                                      ("bob"%string, None)]);
        Log Info (SavedPerf 2)]).
Proof. vm_compute. reflexivity. Qed.

Lemma requests_app t1 t2 : requests (t1 ++ t2) = requests t1 ++ requests t2.
Proof. unfold requests. apply List.filter_app. Qed.

Lemma sleeps_app t1 t2 : sleeps (t1 ++ t2) = sleeps t1 ++ sleeps t2.
Proof. unfold sleeps. apply List.filter_app. Qed.

Lemma saves_app t1 t2 : saves (t1 ++ t2) = saves t1 ++ saves t2.
Proof. unfold saves. apply omap_app. Qed.

Lemma snapshots_app filename base n1 n2 :
  snapshots filename base (n1 ++ n2)
  = snapshots filename base n1 ++ snapshots filename (base ++ n1) n2.
Proof.
  revert base. induction n1 as [|e n1 IH]; intros base; simpl.
  - now rewrite app_nil_r.
  - rewrite IH. now rewrite <- app_assoc.
Qed.

Lemma lookup_user_app user l1 l2 :
  lookup_user user (l1 ++ l2)
  = match lookup_user user l1 with
    | Some p => Some p
    | None => lookup_user user l2
    end.
Proof.
  induction l1 as [|[u p] l1 IH]; simpl; [reflexivity |].
  destruct (decide (u = user)); [reflexivity | exact IH].
Qed.

Lemma lookup_user_None user l :
  lookup_user user l = None <-> user ∉ map fst l.
Proof.
  induction l as [|[u p] l IH]; simpl.
  - split; [intros _; apply not_elem_of_nil | reflexivity].
  - rewrite not_elem_of_cons. destruct (decide (u = user)) as [-> | Hne].
    + split; [discriminate | intros [H _]; congruence].
    + rewrite IH. split; [intros H; split; [congruence | exact H] | intros [_ H]; exact H].
Qed.

Ltac run :=
  unfold bind, ret, logger, sleep, append, save, emit, get_rating_history, call;
  simpl.

Ltac events_ok :=
  repeat (constructor; [first [left; reflexivity | right; reflexivity] |]);
  constructor.

Section Collection.

Variable Env : Type.
Variable remote : string -> Env -> outcome (list track) * Env.

Implicit Types (w : world Env) (c : counters) (user filename : string).

Lemma quiet_refl w : quiet w w.
Proof. repeat split. Qed.

Lemma quiet_emit w e : saved_of e = None -> quiet w (emit e w).
Proof.
  intros He. repeat split. simpl. rewrite saves_app. simpl.
  unfold saves at 2. simpl. rewrite He. apply app_nil_r.
Qed.

Lemma progress_quiet c w : quiet w (progress c w).
Proof.
  unfold progress. destruct (checked c mod 10 =? 0);
    [now apply quiet_emit | apply quiet_refl].
Qed.

Lemma puzzle_points_none history : no_puzzles history -> puzzle_points history = None.
Proof.
  intros H. unfold puzzle_points.
  replace (filter (fun h => Track.name h = "Puzzles"%string) history) with (@nil track);
    [reflexivity |].
  symmetry. induction H as [|t l Ht _ IH]; [reflexivity |].
  rewrite filter_cons. destruct (decide (Track.name t = "Puzzles"%string)); [contradiction | exact IH].
Qed.

(** *** [get_puzzle_history], reply by reply *)

Lemma get_puzzle_history_found user w history e1 :
  remote user (env w) = (Ret history, e1) ->
  get_puzzle_history remote user w
  = (Ret (puzzle_points history),
     mkWorld e1 (data w) (disk w) (trace w ++ [Request user])).
Proof.
  intros H. unfold get_puzzle_history, get_rating_history, call. now rewrite H.
Qed.

Lemma get_puzzle_history_404 user w e1 :
  remote user (env w) = (Raise (ResponseError 404), e1) ->
  get_puzzle_history remote user w
  = (Ret None,
     mkWorld e1 (data w) (disk w)
             (trace w ++ [Request user; Log Warning (UserMissing user)])).
Proof.
  intros H. unfold get_puzzle_history, get_rating_history, call. rewrite H.
  run. now rewrite <- app_assoc.
Qed.

Lemma get_puzzle_history_429 user w e1 :
  remote user (env w) = (Raise (ResponseError 429), e1) ->
  get_puzzle_history remote user w
  = (match fst (remote user e1) with
     | Ret history => Ret (puzzle_points history)
     | Raise e => Raise e
     end,
     mkWorld (snd (remote user e1)) (data w) (disk w)
             (trace w ++ [Request user; Log Info RateLimited; Sleep 61; Request user])).
Proof.
  intros H. unfold get_puzzle_history, get_rating_history, call. rewrite H.
  run. destruct (remote user e1) as [[history | e] e2]; run;
    now rewrite <- !app_assoc.
Qed.

Lemma get_puzzle_history_fatal user w status_code e1 :
  remote user (env w) = (Raise (ResponseError status_code), e1) ->
  status_code <> 404 -> status_code <> 429 ->
  get_puzzle_history remote user w
  = (Raise (ResponseError status_code),
     mkWorld e1 (data w) (disk w)
             (trace w ++ [Request user; Log Fatal (RetrieveFailed user)])).
Proof.
  intros H H404 H429. unfold get_puzzle_history, get_rating_history, call. rewrite H.
  apply Z.eqb_neq in H404, H429. rewrite H404, H429.
  run. now rewrite <- app_assoc.
Qed.

Lemma get_puzzle_history_other user w err e1 :
  remote user (env w) = (Raise (OtherException err), e1) ->
  get_puzzle_history remote user w
  = (Ret None,
     mkWorld e1 (data w) (disk w)
             (trace w ++ [Request user; Log Warning (RetrieveSkipped user err)])).
Proof.
  intros H. unfold get_puzzle_history, get_rating_history, call. rewrite H.
  run. now rewrite <- app_assoc.
Qed.

Lemma get_puzzle_history_quiet user w o w1 :
  get_puzzle_history remote user w = (o, w1) -> quiet w w1.
Proof.
  destruct (remote user (env w)) as [[history | [status_code | err]] e1] eqn:H.
  - rewrite (get_puzzle_history_found _ _ _ _ H). intros [= _ <-].
    repeat split. simpl. rewrite saves_app. apply app_nil_r.
  - destruct (decide (status_code = 404)) as [-> | H404];
      [| destruct (decide (status_code = 429)) as [-> | H429]].
    + rewrite (get_puzzle_history_404 _ _ _ H). intros [= _ <-].
      repeat split. simpl. rewrite saves_app. apply app_nil_r.
    + rewrite (get_puzzle_history_429 _ _ _ H). intros [= _ <-].
      repeat split. simpl. rewrite saves_app. apply app_nil_r.
    + rewrite (get_puzzle_history_fatal _ _ _ _ H H404 H429). intros [= _ <-].
      repeat split. simpl. rewrite saves_app. apply app_nil_r.
  - rewrite (get_puzzle_history_other _ _ _ _ H). intros [= _ <-].
    repeat split. simpl. rewrite saves_app. apply app_nil_r.
Qed.

(** *** One iteration of the loop *)

Lemma fetch_body_hit filename user c w p :
  lookup_user user (data w) = Some p ->
  fetch_body remote filename user c w = (Ret (hit c p), progress (hit c p) w).
Proof.
  intros H. unfold fetch_body, progress. rewrite H. run.
  unfold hit. simpl. now destruct ((checked c + 1) mod 10 =? 0).
Qed.

Lemma fetch_body_miss filename user c w h w1 :
  lookup_user user (data w) = None ->
  get_puzzle_history remote user w = (Ret h, w1) ->
  fetch_body remote filename user c w
  = (Ret (miss c h), progress (miss c h) (committed filename (user, h) w1)).
Proof.
  intros H Hg. unfold fetch_body, progress. rewrite H. run. rewrite Hg. simpl.
  unfold miss, committed. simpl. now destruct ((checked c + 1) mod 10 =? 0).
Qed.

Lemma fetch_body_raise filename user c w e w1 :
  lookup_user user (data w) = None ->
  get_puzzle_history remote user w = (Raise e, w1) ->
  fetch_body remote filename user c w = (Raise e, w1).
Proof.
  intros H Hg. unfold fetch_body. rewrite H. run. now rewrite Hg.
Qed.

Lemma fetch_body_cases filename user c w o w' :
  fetch_body remote filename user c w = (o, w') ->
  (exists p, lookup_user user (data w) = Some p
             /\ o = Ret (hit c p) /\ w' = progress (hit c p) w)
  \/ (exists h w1, lookup_user user (data w) = None
                   /\ get_puzzle_history remote user w = (Ret h, w1)
                   /\ o = Ret (miss c h)
                   /\ w' = progress (miss c h) (committed filename (user, h) w1))
  \/ (exists e, lookup_user user (data w) = None
                /\ get_puzzle_history remote user w = (Raise e, w')
                /\ o = Raise e).
Proof.
  destruct (lookup_user user (data w)) as [p|] eqn:Hl.
  - rewrite (fetch_body_hit _ _ _ _ _ Hl). intros [= <- <-]. left. eauto.
  - destruct (get_puzzle_history remote user w) as [[h | e] w1] eqn:Hg.
    + rewrite (fetch_body_miss _ _ _ _ _ _ Hl Hg). intros [= <- <-].
      right. left. exists h, w1. auto.
    + rewrite (fetch_body_raise _ _ _ _ _ _ Hl Hg). intros [= <- <-].
      right. right. eauto.
Qed.

(** *** The loop *)

Lemma fetch_loop_stop num filename users c w :
  num <= checked c -> fetch_loop remote num filename users c w = (Ret c, w).
Proof.
  intros H. destruct users; simpl; [reflexivity |].
  apply Z.leb_le in H. now rewrite H.
Qed.

Lemma fetch_loop_step num filename user rest c w :
  checked c < num ->
  fetch_loop remote num filename (user :: rest) c w
  = match fetch_body remote filename user c w with
    | (Ret c1, w1) => fetch_loop remote num filename rest c1 w1
    | (Raise e, w1) => (Raise e, w1)
    end.
Proof.
  intros H. simpl. apply Z.leb_gt in H. rewrite H. reflexivity.
Qed.

(** A relation between worlds that holds across every iteration holds
    across the loop, however it ends. *)
Lemma fetch_loop_rel (R : world Env -> world Env -> Prop) num filename :
  (forall w, R w w) ->
  (forall w1 w2 w3, R w1 w2 -> R w2 w3 -> R w1 w3) ->
  (forall user c w o w', fetch_body remote filename user c w = (o, w') -> R w w') ->
  forall users c w o w',
    fetch_loop remote num filename users c w = (o, w') -> R w w'.
Proof.
  intros Hrefl Htrans Hbody. induction users as [|user rest IH]; intros c w o w'.
  - intros [= _ <-]. apply Hrefl.
  - destruct (Z.le_gt_cases num (checked c)) as [Hstop | Hgo].
    + rewrite fetch_loop_stop by exact Hstop. intros [= _ <-]. apply Hrefl.
    + rewrite fetch_loop_step by lia.
      destruct (fetch_body remote filename user c w) as [[c1 | e] w1] eqn:Hb.
      * intros Hl. eapply Htrans; [eapply Hbody; exact Hb | eapply IH; exact Hl].
      * intros [= _ <-]. eapply Hbody; exact Hb.
Qed.

Lemma fetch_perf_cases num filename users w o w' :
  fetch_perf remote num filename users w = (o, w') ->
  (exists c w1, fetch_loop remote num filename users (mkCounters 0 0 0) w = (Ret c, w1)
                /\ o = Ret (data w1)
                /\ w' = emit (Log Info (SavedPerf (Z.of_nat (length (data w1))))) w1)
  \/ (exists e, fetch_loop remote num filename users (mkCounters 0 0 0) w = (Raise e, w')
                /\ o = Raise e).
Proof.
  unfold fetch_perf. unfold bind at 1.
  destruct (fetch_loop remote num filename users (mkCounters 0 0 0) w)
    as [[c | e] w1].
  - run. intros [= <- <-]. left. eauto.
  - intros [= <- <-]. right. eauto.
Qed.

Lemma fetch_perf_rel (R : world Env -> world Env -> Prop) num filename :
  (forall w, R w w) ->
  (forall w1 w2 w3, R w1 w2 -> R w2 w3 -> R w1 w3) ->
  (forall w e, saved_of e = None -> is_request e = false -> R w (emit e w)) ->
  (forall user c w o w', fetch_body remote filename user c w = (o, w') -> R w w') ->
  forall users w o w',
    fetch_perf remote num filename users w = (o, w') -> R w w'.
Proof.
  intros Hrefl Htrans Hemit Hbody users w o w' H.
  apply fetch_perf_cases in H as [(c & w1 & Hl & _ & ->) | (e & Hl & _)].
  - eapply Htrans; [eapply fetch_loop_rel; eauto | now apply Hemit].
  - eapply fetch_loop_rel; eauto.
Qed.

Lemma get_puzzle_history_events user w o w1 :
  get_puzzle_history remote user w = (o, w1) ->
  exists evs, trace w1 = trace w ++ evs
              /\ Forall (fun e => e = Request user \/ is_request e = false) evs.
Proof.
  destruct (remote user (env w)) as [[history | [status_code | err]] e1] eqn:H.
  - rewrite (get_puzzle_history_found _ _ _ _ H). intros [= _ <-].
    eexists. split; [reflexivity | events_ok].
  - destruct (decide (status_code = 404)) as [-> | H404];
      [| destruct (decide (status_code = 429)) as [-> | H429]].
    + rewrite (get_puzzle_history_404 _ _ _ H). intros [= _ <-].
      eexists. split; [reflexivity | events_ok].
    + rewrite (get_puzzle_history_429 _ _ _ H). intros [= _ <-].
      eexists. split; [reflexivity | events_ok].
    + rewrite (get_puzzle_history_fatal _ _ _ _ H H404 H429). intros [= _ <-].
      eexists. split; [reflexivity | events_ok].
  - rewrite (get_puzzle_history_other _ _ _ _ H). intros [= _ <-].
    eexists. split; [reflexivity | events_ok].
Qed.

Lemma committed_quiet_before filename e w w1 :
  quiet w w1 ->
  persisted filename w (committed filename e w1).
Proof.
  intros (Hd & Hk & Hs). exists [e]. unfold committed. simpl.
  rewrite saves_app, Hd, Hk, Hs. repeat split. discriminate.
Qed.

Lemma persisted_refl filename w : persisted filename w w.
Proof.
  exists []. simpl. rewrite !app_nil_r. repeat split. intros H. now destruct H.
Qed.

Lemma persisted_quiet filename w w' : quiet w w' -> persisted filename w w'.
Proof.
  intros (Hd & Hk & Hs). exists []. simpl. rewrite !app_nil_r.
  repeat split; auto. intros H. now destruct H.
Qed.

Lemma persisted_trans filename w1 w2 w3 :
  persisted filename w1 w2 -> persisted filename w2 w3 -> persisted filename w1 w3.
Proof.
  intros (n1 & Hd1 & Hs1 & He1 & Hn1) (n2 & Hd2 & Hs2 & He2 & Hn2).
  exists (n1 ++ n2). split; [| split; [| split]].
  - rewrite Hd2, Hd1. now rewrite <- app_assoc.
  - rewrite Hs2, Hs1, Hd1, snapshots_app. now rewrite <- app_assoc.
  - intros H. apply app_eq_nil in H as [-> ->].
    rewrite He2, He1; reflexivity.
  - intros H. destruct n2 as [|e2 n2].
    + rewrite He2 by reflexivity. rewrite app_nil_r in H, Hd2.
      rewrite Hn1 by exact H. now rewrite Hd2.
    + rewrite Hn2 by discriminate.
      destruct n1 as [|e1 n1]; [now rewrite He1 |].
      rewrite Hn1 by discriminate. now rewrite insert_insert_eq.
Qed.

Lemma fetch_body_persisted filename user c w o w' :
  fetch_body remote filename user c w = (o, w') -> persisted filename w w'.
Proof.
  intros H. apply fetch_body_cases in H
    as [(p & _ & _ & ->) | [(h & w1 & _ & Hg & _ & ->) | (e & _ & Hg & _)]].
  - apply persisted_quiet, progress_quiet.
  - eapply persisted_trans; [| apply persisted_quiet, progress_quiet].
    apply committed_quiet_before. eapply get_puzzle_history_quiet; exact Hg.
  - apply persisted_quiet. eapply get_puzzle_history_quiet; exact Hg.
Qed.

Lemma quiet_offline_emit w e :
  is_request e = false -> saved_of e = None -> offline w (emit e w).
Proof.
  intros Hr _. repeat split. simpl. rewrite requests_app. simpl.
  unfold requests at 2. simpl. rewrite Hr. apply app_nil_r.
Qed.

Lemma offline_refl w : offline w w.
Proof. repeat split. Qed.

Lemma offline_trans w1 w2 w3 : offline w1 w2 -> offline w2 w3 -> offline w1 w3.
Proof. intros (?&?&?&?) (?&?&?&?). repeat split; congruence. Qed.

Lemma progress_offline c w : offline w (progress c w).
Proof.
  unfold progress. destruct (checked c mod 10 =? 0);
    [now apply quiet_offline_emit | apply offline_refl].
Qed.

Lemma progress_data c w : data (progress c w) = data w.
Proof. apply progress_quiet. Qed.

Lemma progress_trace c w :
  exists evs, trace (progress c w) = trace w ++ evs
              /\ Forall (fun e => is_request e = false) evs.
Proof.
  unfold progress. destruct (checked c mod 10 =? 0).
  - eexists. split; [reflexivity | repeat constructor].
  - exists []. split; [now rewrite app_nil_r | constructor].
Qed.

Lemma settled_refl user w : settled user w w.
Proof.
  intros _. split; [reflexivity |]. exists []. rewrite app_nil_r.
  split; [reflexivity | apply not_elem_of_nil].
Qed.

Lemma settled_trans user w1 w2 w3 :
  settled user w1 w2 -> settled user w2 w3 -> settled user w1 w3.
Proof.
  intros H12 H23 Hc. destruct (H12 Hc) as (Hl1 & evs1 & Ht1 & Hn1).
  destruct H23 as (Hl2 & evs2 & Ht2 & Hn2); [congruence |].
  split; [congruence |]. exists (evs1 ++ evs2).
  split; [rewrite Ht2, Ht1; now rewrite <- app_assoc |].
  rewrite elem_of_app. tauto.
Qed.

Lemma settled_events user w w' evs :
  data w' = data w -> trace w' = trace w ++ evs ->
  Forall (fun e => e <> Request user) evs -> settled user w w'.
Proof.
  intros Hd Ht Hall _. rewrite Hd. split; [reflexivity |].
  exists evs. split; [exact Ht |]. rewrite Forall_forall in Hall.
  intros Hin. exact (Hall _ Hin eq_refl).
Qed.

Lemma settled_progress user c w : settled user w (progress c w).
Proof.
  destruct (progress_trace c w) as (evs & Ht & Hall).
  eapply settled_events; [apply progress_data | exact Ht |].
  eapply Forall_impl; [exact Hall |]. simpl. intros e He ->. discriminate.
Qed.

Lemma settled_committed user filename e w :
  settled user w (committed filename e w).
Proof.
  intros Hc. unfold committed. simpl. split.
  - rewrite lookup_user_app. destruct (lookup_user user (data w)); [reflexivity | contradiction].
  - eexists. split; [reflexivity |]. rewrite list_elem_of_singleton. discriminate.
Qed.

Lemma fetch_body_settled filename user user0 c w o w' :
  fetch_body remote filename user0 c w = (o, w') -> settled user w w'.
Proof.
  intros H Hc. revert Hc. change (settled user w w').
  assert (forall o1 w1, lookup_user user0 (data w) = None ->
            get_puzzle_history remote user0 w = (o1, w1) -> settled user w w1) as Hg.
  { intros o1 w1 Hl Hg Hc.
    assert (user0 <> user) as Hne by (intros ->; contradiction).
    revert Hc. change (settled user w w1).
    destruct (get_puzzle_history_events _ _ _ _ Hg) as (evs & Ht & Hall).
    eapply settled_events; [eapply get_puzzle_history_quiet; exact Hg | exact Ht |].
    eapply Forall_impl; [exact Hall |]. simpl.
    intros e [-> | He]; [congruence | intros ->; discriminate]. }
  apply fetch_body_cases in H
    as [(p & _ & _ & ->) | [(h & w1 & Hl & Hh & _ & ->) | (e & Hl & Hh & _)]].
  - apply settled_progress.
  - eapply settled_trans; [eapply Hg; eauto |].
    eapply settled_trans; [apply settled_committed | apply settled_progress].
  - eapply Hg; eauto.
Qed.

Lemma fetch_body_keeps_one_entry filename user c w o w' :
  fetch_body remote filename user c w = (o, w') ->
  NoDup (map fst (data w)) -> NoDup (map fst (data w')).
Proof.
  intros H Hnd. apply fetch_body_cases in H
    as [(p & _ & _ & ->) | [(h & w1 & Hl & Hh & _ & ->) | (e & Hl & Hh & _)]].
  - now rewrite progress_data.
  - rewrite progress_data. unfold committed. simpl.
    destruct (get_puzzle_history_quiet _ _ _ _ Hh) as (-> & _).
    rewrite map_app. simpl. apply NoDup_app. split; [exact Hnd | split].
    + intros x Hx Hx'. apply list_elem_of_singleton in Hx' as ->.
      apply lookup_user_None in Hl. contradiction.
    + apply NoDup_singleton.
  - now destruct (get_puzzle_history_quiet _ _ _ _ Hh) as (-> & _).
Qed.

Lemma fetch_body_checked filename user c w c1 w1 :
  fetch_body remote filename user c w = (Ret c1, w1) ->
  checked c1 = checked c + 1 /\ lookup_user user (data w1) <> None.
Proof.
  intros H. apply fetch_body_cases in H
    as [(p & Hl & [= ->] & ->) | [(h & w0 & Hl & Hh & [= ->] & ->) | (e & _ & _ & [=])]].
  - split; [reflexivity |]. rewrite progress_data. congruence.
  - split; [reflexivity |]. rewrite progress_data. unfold committed. simpl.
    rewrite lookup_user_app. destruct (lookup_user user (data w0)); [discriminate |].
    simpl. destruct (decide (user = user)); [discriminate | contradiction].
Qed.

Lemma fetch_loop_caches_examined num filename users c w c' w' :
  fetch_loop remote num filename users c w = (Ret c', w') ->
  forall u, u ∈ examined num users (checked c) -> lookup_user u (data w') <> None.
Proof.
  revert c w. induction users as [|user rest IH]; intros c w H u Hu.
  - now apply elem_of_nil in Hu.
  - simpl in Hu. destruct (Z.leb_spec num (checked c)) as [Hstop | Hgo];
      [now apply elem_of_nil in Hu |].
    rewrite fetch_loop_step in H by exact Hgo.
    destruct (fetch_body remote filename user c w) as [[c1 | e] w1] eqn:Hb;
      [| discriminate].
    destruct (fetch_body_checked _ _ _ _ _ _ Hb) as [Hc1 Hl1].
    apply elem_of_cons in Hu as [-> | Hu].
    + assert (settled user w1 w') as Hs.
      { eapply (fetch_loop_rel (settled user));
          [apply settled_refl | apply settled_trans | | exact H].
        intros. eapply fetch_body_settled; eauto. }
      destruct (Hs Hl1) as [-> _]. exact Hl1.
    + rewrite <- Hc1 in Hu. eapply IH; eauto.
Qed.

Lemma fetch_loop_all_cached num filename users c w :
  (forall u, u ∈ examined num users (checked c) -> lookup_user u (data w) <> None) ->
  exists c' w', fetch_loop remote num filename users c w = (Ret c', w') /\ offline w w'.
Proof.
  revert c w. induction users as [|user rest IH]; intros c w Hall.
  - exists c, w. split; [reflexivity | apply offline_refl].
  - destruct (Z.le_gt_cases num (checked c)) as [Hstop | Hgo].
    + rewrite fetch_loop_stop by exact Hstop.
      exists c, w. split; [reflexivity | apply offline_refl].
    + rewrite fetch_loop_step by lia. simpl in Hall.
      destruct (Z.leb_spec num (checked c)) as [? | _]; [lia |].
      destruct (lookup_user user (data w)) as [p|] eqn:Hl;
        [| exfalso; apply (Hall user); [left | exact Hl]].
      rewrite (fetch_body_hit _ _ _ _ _ Hl).
      destruct (IH (hit c p) (progress (hit c p) w)) as (c' & w' & Hrun & Hoff).
      * intros u Hu. rewrite progress_data. apply Hall. right. exact Hu.
      * exists c', w'. split; [exact Hrun |].
        eapply offline_trans; [apply progress_offline | exact Hoff].
Qed.

Lemma examined_subset num users k u : u ∈ examined num users k -> u ∈ users.
Proof.
  revert k. induction users as [|user rest IH]; intros k; simpl; [auto |].
  destruct (num <=? k); [intros H; now apply elem_of_nil in H |].
  intros H. apply elem_of_cons in H as [-> | H]; [left | right; eauto].
Qed.

(** [filter_perf] returns the values of [filter_values], after logging
    their number and writing them to [sample.json]. *)
Lemma filter_perf_returns parsed start end_ tolerance ref_start ref_end ref_tolerance w :
  let values :=
    filter_values start end_ tolerance ref_start ref_end ref_tolerance parsed in
  filter_perf parsed start end_ tolerance ref_start ref_end ref_tolerance w
  = (Ret values,
     mkWorld (env w) (data w) (<["sample.json"%string := SampleFile values]> (disk w))
       (trace w ++ [Log Info (SavedSample (Z.of_nat (length values)));
                    Saved "sample.json" (SampleFile values)])).
Proof. intros values. unfold filter_perf. run. now rewrite <- app_assoc. Qed.

(** *** [retry] *)

Lemma retry_returns {A} (f : M Env A) w a w1 :
  f w = (Ret a, w1) -> retry f w = (Ret a, w1).
Proof. intros H. unfold retry. now rewrite H. Qed.

Lemma retry_throttled {A} (f : M Env A) w w1 :
  f w = (Raise (ResponseError 429), w1) ->
  retry f w = f (emit (Sleep 61) (emit (Log Info RateLimited) w1)).
Proof. intros H. unfold retry. rewrite H. reflexivity. Qed.

Lemma retry_raises {A} (f : M Env A) w e w1 :
  f w = (Raise e, w1) -> e <> ResponseError 429 -> retry f w = (Raise e, w1).
Proof.
  intros H Hne. unfold retry. rewrite H.
  destruct e as [status_code | err]; [| reflexivity].
  destruct (Z.eqb_spec status_code 429) as [-> | _]; [contradiction | reflexivity].
Qed.

(** C4. [retry] invokes the operation once. An operation that returns, or
    that raises anything but a throttling (429) response error, is invoked
    that once only and its result or exception is passed on, with no sleep.
    When the first invocation raises a 429 response error, [retry] logs,
    sleeps 61 seconds and invokes the operation exactly once more: whatever
    that second invocation returns or raises, a second 429 included, is the
    outcome. *)
Theorem retry_once_on_throttle :
  forall (A : Type) (what : string) (op : Env -> outcome A * Env) w,
    (forall (f : M Env A) a w1, f w = (Ret a, w1) -> retry f w = (Ret a, w1))
    /\ (forall (f : M Env A) w1,
          f w = (Raise (ResponseError 429), w1) ->
          retry f w = f (emit (Sleep 61) (emit (Log Info RateLimited) w1)))
    /\ (forall (f : M Env A) e w1,
          f w = (Raise e, w1) -> e <> ResponseError 429 -> retry f w = (Raise e, w1))
    /\ (forall a e1,
          op (env w) = (Ret a, e1) ->
          retry (call what op) w
          = (Ret a, mkWorld e1 (data w) (disk w) (trace w ++ [Request what])))
    /\ (forall e e1,
          op (env w) = (Raise e, e1) -> e <> ResponseError 429 ->
          retry (call what op) w
          = (Raise e, mkWorld e1 (data w) (disk w) (trace w ++ [Request what])))
    /\ (forall e1,
          op (env w) = (Raise (ResponseError 429), e1) ->
          retry (call what op) w
          = (fst (op e1),
             mkWorld (snd (op e1)) (data w) (disk w)
                     (trace w ++ [Request what; Log Info RateLimited; Sleep 61;
                                  Request what])))
    /\ (forall o w',
          retry (call what op) w = (o, w') ->
          exists evs,
            trace w' = trace w ++ evs
            /\ ((requests evs = [Request what] /\ sleeps evs = []
                 /\ fst (op (env w)) <> Raise (ResponseError 429))
                \/ (requests evs = [Request what; Request what]
                    /\ sleeps evs = [Sleep 61]
                    /\ fst (op (env w)) = Raise (ResponseError 429)))).
Proof.
  intros A what op w.
  assert (forall a e1, op (env w) = (Ret a, e1) ->
            retry (call what op) w
            = (Ret a, mkWorld e1 (data w) (disk w) (trace w ++ [Request what]))) as H1.
  { intros a e1 H. apply retry_returns. unfold call. now rewrite H. }
  assert (forall e e1, op (env w) = (Raise e, e1) -> e <> ResponseError 429 ->
            retry (call what op) w
            = (Raise e, mkWorld e1 (data w) (disk w) (trace w ++ [Request what]))) as H2.
  { intros e e1 H Hne. apply retry_raises; [| exact Hne]. unfold call. now rewrite H. }
  assert (forall e1, op (env w) = (Raise (ResponseError 429), e1) ->
            retry (call what op) w
            = (fst (op e1),
               mkWorld (snd (op e1)) (data w) (disk w)
                       (trace w ++ [Request what; Log Info RateLimited; Sleep 61;
                                    Request what]))) as H3.
  { intros e1 H.
    rewrite (retry_throttled _ w (mkWorld e1 (data w) (disk w) (trace w ++ [Request what])))
      by (unfold call; now rewrite H).
    unfold call, emit. simpl. destruct (op e1) as [r e2]. simpl.
    now rewrite <- !app_assoc. }
  split; [intros; now apply retry_returns |].
  split; [intros; now apply retry_throttled |].
  split; [intros; now apply retry_raises |].
  split; [exact H1 |]. split; [exact H2 |]. split; [exact H3 |].
  intros o w' Hr. destruct (op (env w)) as [[a | e] e1] eqn:Hop.
  - rewrite (H1 _ _ eq_refl) in Hr. injection Hr as _ <-.
    eexists. split; [reflexivity |]. left. repeat split. discriminate.
  - destruct (decide (e = ResponseError 429)) as [-> | Hne].
    + rewrite (H3 _ eq_refl) in Hr. injection Hr as _ <-.
      eexists. split; [reflexivity |]. right. repeat split.
    + rewrite (H2 _ _ eq_refl Hne) in Hr. injection Hr as _ <-.
      eexists. split; [reflexivity |]. left. repeat split. simpl. congruence.
Qed.

(** *** The fetch loop, claim by claim *)

Lemma fetch_loop_miss num filename user rest c w h w1 :
  checked c < num ->
  lookup_user user (data w) = None ->
  get_puzzle_history remote user w = (Ret h, w1) ->
  fetch_loop remote num filename (user :: rest) c w
  = fetch_loop remote num filename rest (miss c h)
      (progress (miss c h) (committed filename (user, h) w1)).
Proof.
  intros Hgo Hl Hg. rewrite fetch_loop_step by exact Hgo.
  now rewrite (fetch_body_miss _ _ _ _ _ _ Hl Hg).
Qed.

Lemma fetch_loop_raise num filename user rest c w e w1 :
  checked c < num ->
  lookup_user user (data w) = None ->
  get_puzzle_history remote user w = (Raise e, w1) ->
  fetch_loop remote num filename (user :: rest) c w = (Raise e, w1).
Proof.
  intros Hgo Hl Hg. rewrite fetch_loop_step by exact Hgo.
  now rewrite (fetch_body_raise _ _ _ _ _ _ Hl Hg).
Qed.

Lemma fetch_perf_raise num filename users w e w' :
  fetch_loop remote num filename users (mkCounters 0 0 0) w = (Raise e, w') ->
  fetch_perf remote num filename users w = (Raise e, w').
Proof. intros H. unfold fetch_perf. unfold bind at 1. now rewrite H. Qed.

(** C3, as amended. For a user that is not in the cache, when the call to
    the remote service raises an exception that is not a response error,
    the loop logs a warning, appends the user with no data, writes the cache
    and goes on with the remaining users. When the call raises a response
    error whose status is neither 404 nor 429, the error is logged as fatal
    and raised again: the loop and [fetch_perf] end with it, the cache and
    the disk being as they were before that user. *)
Theorem other_exception_skips_user :
  forall num filename user rest c w,
    checked c < num ->
    lookup_user user (data w) = None ->
    (forall err e1,
       remote user (env w) = (Raise (OtherException err), e1) ->
       let w1 :=
         committed filename (user, None)
           (mkWorld e1 (data w) (disk w)
              (trace w ++ [Request user; Log Warning (RetrieveSkipped user err)])) in
       fetch_body remote filename user c w
       = (Ret (miss c None), progress (miss c None) w1)
       /\ fetch_loop remote num filename (user :: rest) c w
          = fetch_loop remote num filename rest (miss c None)
              (progress (miss c None) w1)
       /\ data (progress (miss c None) w1) = data w ++ [(user, None)]
       /\ disk (progress (miss c None) w1) !! filename
          = Some (CacheFile (data w ++ [(user, None)])))
    /\ (forall status_code e1,
          remote user (env w) = (Raise (ResponseError status_code), e1) ->
          status_code <> 404 -> status_code <> 429 ->
          let w1 :=
            mkWorld e1 (data w) (disk w)
              (trace w ++ [Request user; Log Fatal (RetrieveFailed user)]) in
          fetch_loop remote num filename (user :: rest) c w
          = (Raise (ResponseError status_code), w1)
          /\ (c = mkCounters 0 0 0 ->
              fetch_perf remote num filename (user :: rest) w
              = (Raise (ResponseError status_code), w1))).
Proof.
  intros num filename user rest c w Hgo Hl. split.
  - intros err e1 Hr w1.
    pose proof (get_puzzle_history_other _ _ _ _ Hr) as Hg.
    split; [exact (fetch_body_miss filename user c w _ _ Hl Hg) |].
    split; [exact (fetch_loop_miss num filename user rest c w _ _ Hgo Hl Hg) |].
    rewrite progress_data. split; [reflexivity |].
    destruct (progress_quiet (miss c None) w1) as (_ & -> & _).
    unfold w1, committed. simpl. apply lookup_insert_eq.
  - intros status_code e1 Hr H404 H429 w1.
    pose proof (get_puzzle_history_fatal _ _ _ _ Hr H404 H429) as Hg.
    pose proof (fetch_loop_raise num filename user rest c w _ _ Hgo Hl Hg) as Hloop.
    split; [exact Hloop |]. intros ->. now apply fetch_perf_raise.
Qed.

(** C5. A user found in the cache, with or without a history, is counted
    as checked and costs no request: the remote service, the cache and the
    disk are left as they were. Hence a run over candidates that are all in
    the cache, and a second run over the candidates of a run that returned,
    make no request and return the cache unchanged. A cache with at most one
    entry per user keeps that property through any run, whatever the
    candidate list repeats and however the run ends. *)
Theorem cached_user_not_refetched :
  forall num filename,
    (forall user c w p,
       lookup_user user (data w) = Some p ->
       fetch_body remote filename user c w = (Ret (hit c p), progress (hit c p) w)
       /\ checked (hit c p) = checked c + 1
       /\ offline w (progress (hit c p) w))
    /\ (forall users w,
          (forall u, u ∈ users -> lookup_user u (data w) <> None) ->
          exists w',
            fetch_perf remote num filename users w = (Ret (data w), w')
            /\ offline w w')
    /\ (forall users w r w1,
          fetch_perf remote num filename users w = (Ret r, w1) ->
          exists w2,
            fetch_perf remote num filename users w1 = (Ret r, w2)
            /\ offline w1 w2)
    /\ (forall users w o w',
          NoDup (map fst (data w)) ->
          fetch_perf remote num filename users w = (o, w') ->
          NoDup (map fst (data w'))).
Proof.
  intros num filename.
  assert (forall users w,
            (forall u, u ∈ examined num users 0 -> lookup_user u (data w) <> None) ->
            exists w', fetch_perf remote num filename users w = (Ret (data w), w')
                       /\ offline w w') as Hall.
  { intros users w Hc.
    destruct (fetch_loop_all_cached num filename users (mkCounters 0 0 0) w Hc)
      as (c' & w1 & Hloop & Hoff).
    unfold fetch_perf. unfold bind at 1. rewrite Hloop. run.
    destruct Hoff as (He & Hd & Hk & Hr). eexists. split.
    - rewrite <- Hd. reflexivity.
    - repeat split; simpl; auto. rewrite requests_app, Hr. apply app_nil_r. }
  split; [| split; [| split]].
  - intros user c w p Hl.
    split; [exact (fetch_body_hit _ _ _ _ _ Hl) |].
    split; [reflexivity | apply progress_offline].
  - intros users w Hc. apply Hall. intros u Hu. apply Hc.
    eapply examined_subset; exact Hu.
  - intros users w r w1 H.
    apply fetch_perf_cases in H as [(c & w0 & Hloop & [= ->] & ->) | (e & _ & [=])].
    destruct (Hall users (emit (Log Info (SavedPerf (Z.of_nat (length (data w0))))) w0))
      as (w2 & Hrun & Hoff).
    + intros u Hu. simpl.
      eapply (fetch_loop_caches_examined _ _ _ _ _ _ _ Hloop). exact Hu.
    + exists w2. split; [exact Hrun | exact Hoff].
  - intros users w o w' Hnd H. revert Hnd.
    eapply (fetch_perf_rel
              (fun w w' => NoDup (map fst (data w)) -> NoDup (map fst (data w'))));
      [auto | auto | auto | | exact H].
    intros user c w0 o0 w0' Hb. eapply fetch_body_keeps_one_entry; exact Hb.
Qed.

(** C6. An iteration that resolves a cache miss ends, before the loop
    goes on to the next user, with the new entry appended and the file
    holding the whole cache. Across the loop and across [fetch_perf],
    however they end, the cache has only grown by appended entries, each of
    them was written together with all the entries before it, in that
    order, and as soon as one entry was appended the file holds the cache
    in full. *)
Theorem cache_persisted_before_next_user :
  forall num filename,
    (forall user c w c1 w1,
       lookup_user user (data w) = None ->
       fetch_body remote filename user c w = (Ret c1, w1) ->
       exists h,
         data w1 = data w ++ [(user, h)]
         /\ disk w1 !! filename = Some (CacheFile (data w1))
         /\ saves (trace w1) = saves (trace w) ++ [(filename, CacheFile (data w1))])
    /\ (forall users c w o w',
          fetch_loop remote num filename users c w = (o, w') ->
          persisted filename w w')
    /\ (forall users w o w',
          fetch_perf remote num filename users w = (o, w') ->
          persisted filename w w'
          /\ (data w' <> data w -> disk w' !! filename = Some (CacheFile (data w')))).
Proof.
  intros num filename. split; [| split].
  - intros user c w c1 w1 Hl H. apply fetch_body_cases in H
      as [(p & Hl' & _) | [(h & w0 & _ & Hg & _ & ->) | (e & _ & _ & [=])]];
      [congruence |].
    destruct (get_puzzle_history_quiet _ _ _ _ Hg) as (Hd & Hk & Hs).
    destruct (progress_quiet (miss c h) (committed filename (user, h) w0))
      as (Hd' & Hk' & Hs').
    exists h. rewrite Hd', Hk', Hs'. unfold committed. simpl.
    rewrite saves_app, Hd, Hs. split; [reflexivity |].
    split; [apply lookup_insert_eq | reflexivity].
  - intros users c w o w' H.
    eapply (fetch_loop_rel (persisted filename));
      [apply persisted_refl | apply persisted_trans | | exact H].
    intros. eapply fetch_body_persisted; eauto.
  - intros users w o w' H.
    assert (persisted filename w w') as Hp.
    { eapply (fetch_perf_rel (persisted filename));
        [apply persisted_refl | apply persisted_trans | | | exact H].
      - intros w0 e He _. apply persisted_quiet. now apply quiet_emit.
      - intros. eapply fetch_body_persisted; eauto. }
    split; [exact Hp |].
    destruct Hp as (new & Hd & _ & _ & Hn). intros Hne.
    rewrite Hn; [apply lookup_insert_eq |].
    intros ->. rewrite app_nil_r in Hd. contradiction.
Qed.

Lemma settled_emit user w e : is_request e = false -> settled user w (emit e w).
Proof.
  intros He. eapply settled_events; [reflexivity | reflexivity |].
  repeat constructor. intros ->. discriminate.
Qed.

(** Users without history, on the paths of [get_puzzle_history] that
    return [None]. For a user that is not in the cache, when the remote
    service answers the request with a 404 response error, or with a rating
    history that has no "Puzzles" track, be it at once or at the one retry
    that follows a 429, the loop appends the user with no data ([None]),
    writes the cache and goes on with the remaining users. From then on the
    user is found in the cache: through the rest of the loop and through any
    later [fetch_perf] the entry stays, no request is made for the user, and
    meeting the user again is a hit that asks nothing of the remote service.
    [parse_perf] drops the entry, so the user reaches no sample. The retry
    that follows a 429 is made outside the [try]: an exception it raises
    ends the loop, and no entry is appended. *)
Theorem no_history_cached_once :
  forall num filename user rest c w,
    checked c < num ->
    lookup_user user (data w) = None ->
    (forall w1,
       (exists e1,
          remote user (env w) = (Raise (ResponseError 404), e1)
          /\ w1 = mkWorld e1 (data w) (disk w)
                    (trace w ++ [Request user; Log Warning (UserMissing user)]))
       \/ (exists history e1,
             remote user (env w) = (Ret history, e1) /\ no_puzzles history
             /\ w1 = mkWorld e1 (data w) (disk w) (trace w ++ [Request user]))
       \/ (exists e1 history e2,
             remote user (env w) = (Raise (ResponseError 429), e1)
             /\ remote user e1 = (Ret history, e2) /\ no_puzzles history
             /\ w1 = mkWorld e2 (data w) (disk w)
                       (trace w ++ [Request user; Log Info RateLimited; Sleep 61;
                                    Request user])) ->
       let w2 := progress (miss c None) (committed filename (user, None) w1) in
       fetch_loop remote num filename (user :: rest) c w
       = fetch_loop remote num filename rest (miss c None) w2
       /\ data w2 = data w ++ [(user, None)]
       /\ disk w2 !! filename = Some (CacheFile (data w2))
       /\ lookup_user user (data w2) = Some None)
    /\ (forall num' filename' users c' w3 o w4,
          lookup_user user (data w3) = Some None ->
          fetch_loop remote num' filename' users c' w3 = (o, w4) ->
          lookup_user user (data w4) = Some None
          /\ exists evs, trace w4 = trace w3 ++ evs /\ Request user ∉ evs)
    /\ (forall num' filename' users w3 o w4,
          lookup_user user (data w3) = Some None ->
          fetch_perf remote num' filename' users w3 = (o, w4) ->
          lookup_user user (data w4) = Some None
          /\ exists evs, trace w4 = trace w3 ++ evs /\ Request user ∉ evs)
    /\ (forall filename' c' w3,
          lookup_user user (data w3) = Some None ->
          fetch_body remote filename' user c' w3
          = (Ret (hit c' None), progress (hit c' None) w3)
          /\ offline w3 (progress (hit c' None) w3))
    /\ (forall before after,
          parse_perf (before ++ (user, None) :: after) = parse_perf (before ++ after))
    /\ (forall e1 e e2,
          remote user (env w) = (Raise (ResponseError 429), e1) ->
          remote user e1 = (Raise e, e2) ->
          fetch_loop remote num filename (user :: rest) c w
          = (Raise e,
             mkWorld e2 (data w) (disk w)
               (trace w ++ [Request user; Log Info RateLimited; Sleep 61;
                            Request user]))).
Proof.
  intros num filename user rest c w Hgo Hl.
  split; [| split; [| split; [| split; [| split]]]].
  - intros w1 Hreply w2.
    assert (get_puzzle_history remote user w = (Ret None, w1)) as Hg.
    { destruct Hreply as [(e1 & Hr & ->) | [(history & e1 & Hr & Hn & ->)
                                           | (e1 & history & e2 & Hr & Hr' & Hn & ->)]].
      - exact (get_puzzle_history_404 _ _ _ Hr).
      - rewrite (get_puzzle_history_found _ _ _ _ Hr). now rewrite puzzle_points_none.
      - rewrite (get_puzzle_history_429 _ _ _ Hr), Hr'. simpl.
        now rewrite puzzle_points_none. }
    assert (data w2 = data w ++ [(user, None)]) as Hd.
    { unfold w2. rewrite progress_data. unfold committed. simpl.
      now destruct (get_puzzle_history_quiet _ _ _ _ Hg) as (-> & _). }
    split; [exact (fetch_loop_miss num filename user rest c w _ _ Hgo Hl Hg) |].
    split; [exact Hd |].
    split.
    { unfold w2 at 1. destruct (progress_quiet (miss c None)
                                  (committed filename (user, None) w1)) as (_ & -> & _).
      unfold w2. rewrite progress_data. unfold committed. simpl. apply lookup_insert_eq. }
    rewrite Hd, lookup_user_app, Hl. simpl.
    destruct (decide (user = user)); [reflexivity | contradiction].
  - intros num' filename' users c' w3 o w4 Hc Hrun.
    assert (settled user w3 w4) as Hs.
    { eapply (fetch_loop_rel (settled user));
        [apply settled_refl | apply settled_trans | | exact Hrun].
      intros. eapply fetch_body_settled; eauto. }
    destruct Hs as (Heq & Hev); [congruence |]. split; [congruence | exact Hev].
  - intros num' filename' users w3 o w4 Hc Hrun.
    assert (settled user w3 w4) as Hs.
    { eapply (fetch_perf_rel (settled user));
        [apply settled_refl | apply settled_trans | | | exact Hrun].
      + intros w0 e _ He. now apply settled_emit.
      + intros. eapply fetch_body_settled; eauto. }
    destruct Hs as (Heq & Hev); [congruence |]. split; [congruence | exact Hev].
  - intros filename' c' w3 Hc.
    split; [exact (fetch_body_hit _ _ _ _ _ Hc) | apply progress_offline].
  - intros before after. rewrite !parse_perf_app. reflexivity.
  - intros e1 e e2 Hr Hr'.
    apply (fetch_loop_raise num filename user rest c w); [exact Hgo | exact Hl |].
    rewrite (get_puzzle_history_429 _ _ _ Hr), Hr'. reflexivity.
Qed.

End Collection.

(** ** The claims on scripted runs *)

Lemma retry_once_on_throttle_witness :
  retry (call "tournaments" (scripted "tournaments"))
    (blank [Raise (ResponseError 429); Ret [Track.mk "Puzzles" []]])
  = (Ret [Track.mk "Puzzles" []],
     mkWorld [] [] ∅
       [Request "tournaments"; Log Info RateLimited; Sleep 61; Request "tournaments"]).
Proof.
  destruct (retry_once_on_throttle _ _ "tournaments" (scripted "tournaments")
              (blank [Raise (ResponseError 429); Ret [Track.mk "Puzzles" []]]))
    as (_ & _ & _ & _ & _ & H & _).
  exact (H [Ret [Track.mk "Puzzles" []]] eq_refl).
Defined.

(** C3 as stated fails on the code: the remote service answers the request
    for the first of two users with a response error of status 500; the
    user is not recorded as having no data, the second user is never
    requested, and [fetch_perf] ends with the error. *)
Lemma response_error_aborts_run :
  fetch_perf scripted 10 "perf.json" ["alice"; "bob"]%string
    (blank [Raise (ResponseError 500); Ret [Track.mk "Puzzles" [(2020, 2, 4, 1500)]]])
  = (Raise (ResponseError 500),
     mkWorld [Ret [Track.mk "Puzzles" [(2020, 2, 4, 1500)]]] [] ∅
       [Request "alice"; Log Fatal (RetrieveFailed "alice")]).
Proof. vm_compute. reflexivity. Qed.

Lemma other_exception_skips_user_witness :
  fetch_body scripted "perf.json" "alice" (mkCounters 0 0 0)
    (blank [Raise (OtherException "timed out")])
  = (Ret (mkCounters 1 0 0),
     mkWorld [] [("alice"%string, None)]
       {[ "perf.json"%string := CacheFile [("alice"%string, None)] ]}
       [Request "alice"; Log Warning (RetrieveSkipped "alice" "timed out");
        Saved "perf.json" (CacheFile [("alice"%string, None)])]).
Proof.
  destruct (other_exception_skips_user _ scripted 10 "perf.json" "alice" ["bob"%string]
              (mkCounters 0 0 0) (blank [Raise (OtherException "timed out")]))
    as [H _]; [simpl; lia | reflexivity |].
  destruct (H "timed out"%string [] eq_refl) as [Hb _]. exact Hb.
Defined.

Lemma cached_user_not_refetched_witness :
  let users := ["alice"; "bob"; "alice"]%string in
  let cache := [("alice"%string, Some [(2020, 2, 4, 1500)]); ("bob"%string, None)] in
  let after_first :=
    mkWorld [] cache {[ "perf.json"%string := CacheFile cache ]}
      [Request "alice";
       Saved "perf.json" (CacheFile [("alice"%string, Some [(2020, 2, 4, 1500)])]);
       Request "bob"; Log Warning (UserMissing "bob");
       Saved "perf.json" (CacheFile cache);
       Log Info (SavedPerf 2)] in
  exists w2,
    fetch_perf scripted 10 "perf.json" users after_first = (Ret cache, w2)
    /\ offline after_first w2.
Proof.
  intros users cache after_first.
  destruct (cached_user_not_refetched _ scripted 10 "perf.json") as (_ & _ & H & _).
  apply (H users
           (blank [Ret [Track.mk "Puzzles" [(2020, 2, 4, 1500)]];
                   Raise (ResponseError 404)])).
  vm_compute. reflexivity.
Defined.

Lemma cache_persisted_before_next_user_witness :
  let cache := [("alice"%string, Some [(2020, 2, 4, 1500)]); ("bob"%string, None)] in
  persisted "perf.json"
    (blank [Ret [Track.mk "Puzzles" [(2020, 2, 4, 1500)]]; Raise (ResponseError 404);
            Raise (ResponseError 500)])
    (mkWorld [] cache {[ "perf.json"%string := CacheFile cache ]}
       [Request "alice";
        Saved "perf.json" (CacheFile [("alice"%string, Some [(2020, 2, 4, 1500)])]);
        Request "bob"; Log Warning (UserMissing "bob");
        Saved "perf.json" (CacheFile cache);
        Request "carol"; Log Fatal (RetrieveFailed "carol")]).
Proof.
  intros cache.
  destruct (cache_persisted_before_next_user _ scripted 10 "perf.json") as (_ & _ & H).
  refine (proj1 (H ["alice"; "bob"; "carol"]%string _ (Raise (ResponseError 500)) _ _)).
  vm_compute. reflexivity.
Defined.

(** C7, evaluated on the code. The remote service reports the first of
    two users as not found. When the 404 answers the first request, it is
    handled as the claim says: the user is cached with no data and the loop
    goes on with the next user. When the 404 answers the retry that follows
    a 429, it is not handled: no entry is cached for the user, the next user
    is never requested, nothing is written, and [fetch_perf] ends with the
    404 error. *)
Theorem not_found_on_retry_aborts_run :
  fetch_perf scripted 10 "perf.json" ["alice"; "bob"]%string
    (blank [Raise (ResponseError 404);
            Ret [Track.mk "Puzzles" [(2020, 2, 4, 1500)]]])
  = (let cache := [("alice"%string, None);
                   ("bob"%string, Some [(2020, 2, 4, 1500)])] in
     (Ret cache,
      mkWorld [] cache {[ "perf.json"%string := CacheFile cache ]}
        [Request "alice"; Log Warning (UserMissing "alice");
         Saved "perf.json" (CacheFile [("alice"%string, None)]);
         Request "bob"; Saved "perf.json" (CacheFile cache);
         Log Info (SavedPerf 2)]))
  /\ fetch_perf scripted 10 "perf.json" ["alice"; "bob"]%string
       (blank [Raise (ResponseError 429); Raise (ResponseError 404);
               Ret [Track.mk "Puzzles" [(2020, 2, 4, 1500)]]])
     = (Raise (ResponseError 404),
        mkWorld [Ret [Track.mk "Puzzles" [(2020, 2, 4, 1500)]]] [] ∅
          [Request "alice"; Log Info RateLimited; Sleep 61; Request "alice"]).
Proof. split; vm_compute; reflexivity. Qed.

Lemma no_history_cached_once_witness :
  fetch_loop scripted 10 "perf.json" ["bob"; "carol"]%string (mkCounters 0 0 0)
    (blank [Raise (ResponseError 404); Ret [Track.mk "Blitz" [(2020, 2, 4, 1500)]]])
  = fetch_loop scripted 10 "perf.json" ["carol"]%string (mkCounters 1 0 0)
      (mkWorld [Ret [Track.mk "Blitz" [(2020, 2, 4, 1500)]]] [("bob"%string, None)]
         {[ "perf.json"%string := CacheFile [("bob"%string, None)] ]}
         [Request "bob"; Log Warning (UserMissing "bob");
          Saved "perf.json" (CacheFile [("bob"%string, None)])]).
Proof.
  destruct (no_history_cached_once _ scripted 10 "perf.json" "bob" ["carol"%string]
              (mkCounters 0 0 0)
              (blank [Raise (ResponseError 404);
                      Ret [Track.mk "Blitz" [(2020, 2, 4, 1500)]]]))
    as [H _]; [simpl; lia | reflexivity |].
  destruct (H (mkWorld [Ret [Track.mk "Blitz" [(2020, 2, 4, 1500)]]] [] ∅
                 [Request "bob"; Log Warning (UserMissing "bob")]))
    as [Hloop _]; [| exact Hloop].
  left. eexists. split; reflexivity.
Defined.

Lemma parse_perf_normalizes_witness :
  parse_perf [("a"%string, Some [(2020, 1, 29, 1500)]); ("b"%string, None)]
  = Some [("a"%string, [(ymd 2020 2 29, 1500)])].
Proof.
  destruct parse_perf_normalizes as [H _].
  apply (proj2 (H [("a"%string, Some [(2020, 1, 29, 1500)]); ("b"%string, None)] _)).
  split; [repeat constructor | reflexivity].
Defined.

(** ** The sampler on concrete series *)

Example tie_first_seen_wins :
  nearest (ymd 2020 3 5) [(ymd 2020 3 2, 110); (ymd 2020 3 8, 130)]
  = (ymd 2020 3 2, Some 110)
  /\ nearest (ymd 2020 3 5) [(ymd 2020 3 8, 130); (ymd 2020 3 2, 110)]
     = (ymd 2020 3 8, Some 130).
Proof. split; reflexivity. Qed.

Example boundary_seven_days :
  filter_values (ymd 2020 3 5) (ymd 2020 4 5) 7 (ymd 2020 2 1) (ymd 2020 3 1) 7
    [("at"%string, [(ymd 2020 2 1, 100); (ymd 2020 3 1, 120); (ymd 2020 3 5, 110);
                    (ymd 2020 4 12, 150)]);
     ("over"%string, [(ymd 2020 2 1, 100); (ymd 2020 3 1, 120); (ymd 2020 3 5, 110);
                      (ymd 2020 4 13, 150)])]
  = [(Some 110, Some 150, Some 100, Some 120)].
Proof. vm_compute. reflexivity. Qed.

Example unsorted_series :
  filter_values (ymd 2020 3 5) (ymd 2020 4 5) 7 (ymd 2020 2 1) (ymd 2020 3 1) 7
    [("A"%string, [(ymd 2020 4 6, 150); (ymd 2020 3 6, 130); (ymd 2020 2 1, 100);
                   (ymd 2020 3 4, 110)])]
  = [(Some 130, Some 150, Some 100, Some 110)].
Proof. vm_compute. reflexivity. Qed.

(** ** Further properties of the sampler *)

Lemma has_score_inv c :
  has_score c = true -> exists day v, c = (day, Some v) /\ v <> 0.
Proof.
  destruct c as [day [v|]]; unfold has_score; simpl; [| discriminate].
  intros H. exists day, v. split; [reflexivity |].
  intros ->. discriminate.
Qed.

Lemma accepts_all_checks start end_ tolerance ref_start ref_end ref_tolerance c :
  accepts start end_ tolerance ref_start ref_end ref_tolerance c = true
  <-> forall k, k ∈ checks start end_ tolerance ref_start ref_end ref_tolerance c ->
                check k = true.
Proof.
  rewrite accepts_checks, forallb_forall. split; intros H k Hk; apply H.
  - now apply list_elem_of_In.
  - now apply list_elem_of_In.
Qed.

Lemma filter_values_elem start end_ tolerance ref_start ref_end ref_tolerance l smp :
  smp ∈ filter_values start end_ tolerance ref_start ref_end ref_tolerance l ->
  exists user perf,
    (user, perf) ∈ l
    /\ accepts start end_ tolerance ref_start ref_end ref_tolerance
         (scan start end_ ref_start ref_end perf) = true
    /\ smp = sample_of (scan start end_ ref_start ref_end perf).
Proof.
  induction l as [|[u perf] l IH]; simpl; [intros H; now apply elem_of_nil in H |].
  destruct (accepts _ _ _ _ _ _ _) eqn:Ha.
  - intros H. apply elem_of_cons in H as [-> | H].
    + exists u, perf. split; [left | auto].
    + destruct (IH H) as (u' & p' & Hin & Hacc & Heq).
      exists u', p'. split; [right; exact Hin | auto].
  - intros H. destruct (IH H) as (u' & p' & Hin & Hacc & Heq).
    exists u', p'. split; [right; exact Hin | auto].
Qed.

(** X1. Every tuple that [filter_perf] emits comes from one user of the data:
    it is made of the scores of that user's four candidates, and each
    candidate is a point of the user's series with a score other than 0,
    the first of the series at the minimum distance to its target date, and
    within the tolerance the condition compares it with. *)
Theorem samples_are_measured_scores :
  forall start end_ tolerance ref_start ref_end ref_tolerance l smp,
    smp ∈ filter_values start end_ tolerance ref_start ref_end ref_tolerance l ->
    exists user perf,
      (user, perf) ∈ l
      /\ smp = sample_of (scan start end_ ref_start ref_end perf)
      /\ forall cand target tol,
           (cand, target, tol)
             ∈ checks start end_ tolerance ref_start ref_end ref_tolerance
                 (scan start end_ ref_start ref_end perf) ->
           exists day v,
             cand = (day, Some v) /\ v <> 0
             /\ (day, v) ∈ perf
             /\ first_nearest target perf (day, v)
             /\ days_apart day target <= tol.
Proof.
  intros start end_ tolerance ref_start ref_end ref_tolerance l smp Hin.
  destruct (filter_values_elem _ _ _ _ _ _ _ _ Hin) as (user & perf & Hu & Hacc & ->).
  exists user, perf. split; [exact Hu | split; [reflexivity |]].
  intros cand target tol Hk.
  pose proof (proj1 (accepts_all_checks _ _ _ _ _ _ _) Hacc _ Hk) as Hc.
  unfold check in Hc. apply andb_true_iff in Hc as [Hs Ht].
  destruct (has_score_inv _ Hs) as (day & v & -> & Hv).
  exists day, v. split; [reflexivity | split; [exact Hv |]].
  destruct (checks_scan _ _ _ _ _ _ _ _ Hk) as (target' & tol' & Heq).
  inversion Heq as [[Hn Ht' Htol']]. subst target' tol'.
  destruct (nearest_cases target perf) as [[Hs' _] | (p & Hp & _ & Hp')].
  - rewrite Hs' in Hn. discriminate.
  - rewrite Hp' in Hn. destruct p as [pd pv]. simpl in Hn. inversion Hn; subst.
    split; [exact (first_nearest_elem _ _ _ Hp) | split; [exact Hp |]].
    now apply in_tolerance_le in Ht.
Qed.

Lemma samples_are_measured_scores_witness :
  exists user perf,
    (user, perf) ∈ [("A"%string, [(ymd 2020 2 1, 100); (ymd 2020 3 1, 120);
                                  (ymd 2020 3 5, 110); (ymd 2020 4 5, 150)])]
    /\ (Some 110, Some 150, Some 100, Some 120)
       = sample_of (scan (ymd 2020 3 5) (ymd 2020 4 5) (ymd 2020 2 1) (ymd 2020 3 1) perf)
    /\ forall cand target tol,
         (cand, target, tol)
           ∈ checks (ymd 2020 3 5) (ymd 2020 4 5) 7 (ymd 2020 2 1) (ymd 2020 3 1) 7
               (scan (ymd 2020 3 5) (ymd 2020 4 5) (ymd 2020 2 1) (ymd 2020 3 1) perf) ->
         exists day v,
           cand = (day, Some v) /\ v <> 0 /\ (day, v) ∈ perf
           /\ first_nearest target perf (day, v) /\ days_apart day target <= tol.
Proof.
  apply (samples_are_measured_scores (ymd 2020 3 5) (ymd 2020 4 5) 7
           (ymd 2020 2 1) (ymd 2020 3 1) 7).
  vm_compute. left.
Defined.

(** X2. A user whose series is empty contributes nothing, whatever the dates
    and tolerances, and [filter_perf] emits at most one tuple per user. *)
Theorem empty_series_excluded :
  forall start end_ tolerance ref_start ref_end ref_tolerance before user after l,
    filter_values start end_ tolerance ref_start ref_end ref_tolerance
      (before ++ (user, []) :: after)
    = filter_values start end_ tolerance ref_start ref_end ref_tolerance
        (before ++ after)
    /\ (length (filter_values start end_ tolerance ref_start ref_end ref_tolerance l)
        <= length l)%nat.
Proof.
  intros start end_ tolerance ref_start ref_end ref_tolerance before user after l.
  split.
  - rewrite !filter_values_app. reflexivity.
  - induction l as [|[u perf] l IH]; simpl; [lia |].
    destruct (accepts _ _ _ _ _ _ _); simpl; lia.
Qed.

Lemma in_tolerance_mono c target tol tol' :
  tol <= tol' -> in_tolerance c target tol = true -> in_tolerance c target tol' = true.
Proof. rewrite !in_tolerance_le. lia. Qed.

Lemma accepts_mono start end_ tolerance ref_start ref_end ref_tolerance
      tolerance' ref_tolerance' c :
  tolerance <= tolerance' -> ref_tolerance <= ref_tolerance' ->
  accepts start end_ tolerance ref_start ref_end ref_tolerance c = true ->
  accepts start end_ tolerance' ref_start ref_end ref_tolerance' c = true.
Proof.
  intros Ht Hr. unfold accepts. rewrite !andb_true_iff.
  intros [[[[[[[? ?] ?] ?] ?] ?] ?] ?].
  repeat split; eauto using in_tolerance_mono.
Qed.

(** X3. Widening the tolerances never loses a sample: the tuples emitted with
    smaller tolerances are, in order, among those emitted with larger ones. *)
Theorem wider_tolerance_keeps_samples :
  forall start end_ tolerance ref_start ref_end ref_tolerance
         tolerance' ref_tolerance' l,
    tolerance <= tolerance' -> ref_tolerance <= ref_tolerance' ->
    filter_values start end_ tolerance ref_start ref_end ref_tolerance l
      `sublist_of`
    filter_values start end_ tolerance' ref_start ref_end ref_tolerance' l.
Proof.
  intros start end_ tolerance ref_start ref_end ref_tolerance
         tolerance' ref_tolerance' l Ht Hr.
  induction l as [|[u perf] l IH]; simpl; [constructor |].
  destruct (accepts start end_ tolerance ref_start ref_end ref_tolerance _) eqn:Ha.
  - rewrite (accepts_mono _ _ _ _ _ _ _ _ _ Ht Hr Ha). now constructor.
  - destruct (accepts start end_ tolerance' ref_start ref_end ref_tolerance' _);
      [now constructor | exact IH].
Qed.

Lemma wider_tolerance_keeps_samples_witness :
  filter_values (ymd 2020 3 5) (ymd 2020 4 5) 3 (ymd 2020 2 1) (ymd 2020 3 1) 3
    [("A"%string, [(ymd 2020 2 1, 100); (ymd 2020 3 1, 120); (ymd 2020 3 5, 110);
                   (ymd 2020 4 10, 150)])]
    `sublist_of`
  filter_values (ymd 2020 3 5) (ymd 2020 4 5) 7 (ymd 2020 2 1) (ymd 2020 3 1) 7
    [("A"%string, [(ymd 2020 2 1, 100); (ymd 2020 3 1, 120); (ymd 2020 3 5, 110);
                   (ymd 2020 4 10, 150)])].
Proof. apply wider_tolerance_keeps_samples; lia. Defined.

(** X4. With a negative tolerance nothing is within tolerance: [filter_perf]
    emits no tuple at all. *)
Theorem negative_tolerance_rejects_all :
  forall start end_ tolerance ref_start ref_end ref_tolerance l,
    tolerance < 0 \/ ref_tolerance < 0 ->
    filter_values start end_ tolerance ref_start ref_end ref_tolerance l = [].
Proof.
  intros start end_ tolerance ref_start ref_end ref_tolerance l Hneg.
  induction l as [|[u perf] l IH]; simpl; [reflexivity |].
  replace (accepts start end_ tolerance ref_start ref_end ref_tolerance
             (scan start end_ ref_start ref_end perf)) with false; [exact IH |].
  symmetry. apply not_true_is_false. unfold accepts. rewrite !andb_true_iff.
  rewrite !in_tolerance_le. unfold days_apart. lia.
Qed.

Lemma negative_tolerance_rejects_all_witness :
  filter_values (ymd 2020 3 5) (ymd 2020 4 5) (-1) (ymd 2020 2 1) (ymd 2020 3 1) 7
    [("A"%string, [(ymd 2020 2 1, 100); (ymd 2020 3 1, 120); (ymd 2020 3 5, 110);
                   (ymd 2020 4 5, 150)])] = [].
Proof. apply negative_tolerance_rejects_all. left. lia. Defined.

Lemma closer_not_farther target best p :
  days_apart (fst (closer target best p)) target <= days_apart (fst best) target
  /\ (snd best <> None -> snd (closer target best p) <> None).
Proof.
  destruct (closer_cases target best p) as [[H ->] | [H ->]]; simpl.
  - split; [lia | discriminate].
  - split; [lia | auto].
Qed.

(** X5. More points never make a match worse: after any further points are
    scanned, the candidate for a target is at most as far from it as before,
    and a candidate that carried a score still carries one. *)
Theorem more_points_never_farther :
  forall target perf more,
    days_apart (fst (nearest target (perf ++ more))) target
    <= days_apart (fst (nearest target perf)) target
    /\ (snd (nearest target perf) <> None ->
        snd (nearest target (perf ++ more)) <> None).
Proof.
  intros target perf more. induction more as [|p more IH] using rev_ind.
  - rewrite app_nil_r. split; [lia | auto].
  - rewrite app_assoc, nearest_snoc.
    destruct (closer_not_farther target (nearest target (perf ++ more)) p) as [H1 H2].
    destruct IH as [IH1 IH2]. split; [lia | auto].
Qed.

(** ** Further properties of [parse_perf] *)

Lemma parse_perf_some l out :
  parse_perf l = Some out
  <-> Forall (fun up => Forall (fun r => valid_raw r = true) (snd up)) (with_history l)
      /\ out = map (fun up => (fst up, map normalize (snd up))) (with_history l).
Proof.
  revert out.
  induction l as [|[u perf] l IH]; intros out.
    + simpl. split; [intros [= <-]; auto | intros [_ ->]; reflexivity].
    + destruct perf as [[|x perf]|].
      * rewrite parse_perf_skip by reflexivity. apply IH.
      * change (with_history ((u, Some (x :: perf)) :: l))
          with ((u, x :: perf) :: with_history l).
        change (parse_perf ((u, Some (x :: perf)) :: l))
          with (match parse_points (x :: perf) with
                | None => None
                | Some ps => match parse_perf l with
                             | None => None
                             | Some o => Some ((u, ps) :: o)
                             end
                end).
        rewrite Forall_cons. cbn [fst snd map].
        destruct (parse_points (x :: perf)) as [ps|] eqn:Hps.
        -- apply parse_points_spec in Hps as [Hv ->].
           destruct (parse_perf l) as [o|] eqn:Ho.
           ++ destruct (proj1 (IH o) eq_refl) as [Hall ->]. split.
              ** intros [= <-]. auto.
              ** intros [_ ->]. reflexivity.
           ++ split; [discriminate |]. intros [[_ Hall] _].
              discriminate (proj2 (IH _) (conj Hall eq_refl)).
        -- split; [discriminate |]. intros [[Hv _] _].
           assert (parse_points (x :: perf) = Some (map normalize (x :: perf))) as Hs
               by (apply parse_points_spec; auto).
           congruence.
      * rewrite parse_perf_skip by reflexivity. apply IH.
Qed.

Lemma raw_of_normalize r : raw_of (normalize r) = r.
Proof.
  destruct r as [[[y m] dd] v]. unfold raw_of, normalize. simpl.
  repeat f_equal. lia.
Qed.

Lemma valid_month y m dd : Date.valid y m dd = true -> 1 <= m <= 12.
Proof. unfold Date.valid. rewrite !andb_true_iff, !Z.leb_le. lia. Qed.

(** X7. [parse_perf] loses nothing: from its result the users with a history
    and their raw points are recovered, in order, by moving each month back
    by one; and every date in the result is a valid calendar date. *)
Theorem parse_perf_round_trip :
  forall l out,
    parse_perf l = Some out ->
    map (fun up => (fst up, map raw_of (snd up))) out = with_history l
    /\ Forall (fun up =>
                 snd up <> []
                 /\ Forall (fun p =>
                              Date.valid (Date.year (fst p)) (Date.month (fst p))
                                         (Date.day (fst p)) = true) (snd up)) out.
Proof.
  intros l out H.
  apply parse_perf_some in H as [Hvalid ->]. split.
  - rewrite map_map. simpl. rewrite <- (map_id (with_history l)) at 2.
    apply map_ext. intros [u perf]. simpl. f_equal.
    rewrite map_map. rewrite <- (map_id perf) at 2.
    apply map_ext. apply raw_of_normalize.
  - apply Forall_map.
    assert (Forall (fun up : string * list raw_point => snd up <> []) (with_history l))
      as Hne.
    { clear Hvalid. induction l as [|[u [[|x p]|]] l IH]; simpl; auto. }
    revert Hvalid Hne. generalize (with_history l). intros h Hvalid Hne.
    induction Hvalid as [|[u perf] h Hp _ IH]; [constructor |].
    apply Forall_cons in Hne as [Hn Hne]. constructor; [| exact (IH Hne)].
    simpl in *. split; [destruct perf; [contradiction | discriminate] |].
    apply Forall_map. eapply Forall_impl; [exact Hp |].
    intros [[[y m] dd] v]. simpl. auto.
Qed.

Lemma parse_perf_round_trip_witness :
  map (fun up => (fst up, map raw_of (snd up)))
      [("a"%string, [(ymd 2020 2 29, 1500); (ymd 2020 1 31, 1490)])]
  = with_history [("a"%string, Some [(2020, 1, 29, 1500); (2020, 0, 31, 1490)]);
                  ("b"%string, None)].
Proof.
  apply (parse_perf_round_trip
           [("a"%string, Some [(2020, 1, 29, 1500); (2020, 0, 31, 1490)]);
            ("b"%string, None)]).
  reflexivity.
Defined.

Lemma with_history_elem user perf l :
  (user, Some perf) ∈ l -> perf <> [] -> (user, perf) ∈ with_history l.
Proof.
  intros Hin Hne. unfold with_history. apply list_elem_of_omap.
  exists (user, Some perf). split; [exact Hin |]. simpl.
  destruct perf; [contradiction | reflexivity].
Qed.

(** X8. [parse_perf] is all or nothing: one raw point that names no calendar
    date once its month is shifted (a zero-based month outside 0..11, a day
    outside the month), in the history of any user, makes the whole call
    raise. *)
Theorem parse_perf_rejects_bad_date :
  forall l user perf y m dd v,
    (user, Some perf) ∈ l ->
    (y, m, dd, v) ∈ perf ->
    m < 0 \/ 11 < m \/ dd < 1 \/ 31 < dd \/ y < 1 \/ 9999 < y
    \/ Date.days_in_month y (m + 1) < dd ->
    parse_perf l = None.
Proof.
  intros l user perf y m dd v Hu Hp Hbad.
  destruct (parse_perf l) as [out|] eqn:H; [| reflexivity]. exfalso.
  apply parse_perf_some in H as [Hvalid _]. rewrite Forall_forall in Hvalid.
  assert (perf <> []) as Hne by (intros ->; now apply elem_of_nil in Hp).
  pose proof (Hvalid _ (with_history_elem _ _ _ Hu Hne)) as Hv. simpl in Hv.
  rewrite Forall_forall in Hv. specialize (Hv _ Hp). simpl in Hv.
  unfold Date.valid in Hv. rewrite !andb_true_iff, !Z.leb_le in Hv.
  assert (Date.days_in_month y (m + 1) <= 31) as Hdim.
  { unfold Date.days_in_month.
    destruct ((m + 1 =? 2) && Date.is_leap y); [lia |].
    assert (0 <= m + 1 <= 12) as Hm by lia.
    assert (m + 1 = 0 \/ m + 1 = 1 \/ m + 1 = 2 \/ m + 1 = 3 \/ m + 1 = 4
            \/ m + 1 = 5 \/ m + 1 = 6 \/ m + 1 = 7 \/ m + 1 = 8 \/ m + 1 = 9
            \/ m + 1 = 10 \/ m + 1 = 11 \/ m + 1 = 12) as Hc by lia.
    repeat destruct Hc as [-> | Hc]; try rewrite Hc; simpl; lia. }
  lia.
Qed.

Lemma parse_perf_rejects_bad_date_witness :
  parse_perf [("a"%string, Some [(2020, 0, 31, 1490)]);
              ("b"%string, Some [(2020, 1, 29, 1500); (2019, 1, 29, 1510)])] = None.
Proof.
  apply (parse_perf_rejects_bad_date _ "b"%string
           [(2020, 1, 29, 1500); (2019, 1, 29, 1510)] 2019 1 29 1510).
  - right. left.
  - right. left.
  - do 6 right. vm_compute. reflexivity.
Defined.

(** ** Dates and day distances *)

Lemma days_before_year_succ y :
  Date.days_before_year (y + 1)
  = Date.days_before_year y + 365 + (if Date.is_leap y then 1 else 0).
Proof.
  unfold Date.days_before_year, Date.is_leap. cbv zeta.
  replace (y + 1 - 1) with y by lia.
  destruct (Z.eqb_spec (y mod 4) 0), (Z.eqb_spec (y mod 100) 0),
    (Z.eqb_spec (y mod 400) 0); simpl; Z.div_mod_to_equations; lia.
Qed.

Lemma days_before_year_mono y y' :
  y <= y' -> Date.days_before_year y + 365 * (y' - y) <= Date.days_before_year y'.
Proof.
  unfold Date.days_before_year. cbv zeta. intros. Z.div_mod_to_equations. lia.
Qed.

Lemma month_cases m :
  1 <= m <= 12 ->
  m = 1 \/ m = 2 \/ m = 3 \/ m = 4 \/ m = 5 \/ m = 6 \/ m = 7 \/ m = 8 \/ m = 9
  \/ m = 10 \/ m = 11 \/ m = 12.
Proof. lia. Qed.

Lemma valid_bounds y m dd :
  Date.valid y m dd = true ->
  1 <= y <= 9999 /\ 1 <= m <= 12 /\ 1 <= dd <= Date.days_in_month y m.
Proof. unfold Date.valid. rewrite !andb_true_iff, !Z.leb_le. lia. Qed.

(** The day of the year of a valid date: between 1 and the length of the
    year, and increasing with the month and the day. *)
Lemma day_of_year_bounds y m dd :
  Date.valid y m dd = true ->
  1 <= Date.days_before_month y m + dd <= 365 + (if Date.is_leap y then 1 else 0).
Proof.
  intros H. apply valid_bounds in H as (_ & Hm & Hd).
  unfold Date.days_before_month, Date.days_in_month in *.
  destruct (month_cases m Hm) as [-> | [-> | [-> | [-> | [-> | [-> | [-> | [-> | [->
                                 | [-> | [-> | ->]]]]]]]]]]];
    destruct (Date.is_leap y); simpl in *; lia.
Qed.

Lemma day_of_year_mono y m1 d1 m2 d2 :
  Date.valid y m1 d1 = true -> Date.valid y m2 d2 = true ->
  m1 < m2 ->
  Date.days_before_month y m1 + d1 < Date.days_before_month y m2 + d2.
Proof.
  intros H1 H2 Hlt.
  apply valid_bounds in H1 as (_ & Hm1 & Hd1).
  apply valid_bounds in H2 as (_ & Hm2 & Hd2).
  unfold Date.days_before_month, Date.days_in_month in *.
  destruct (month_cases m1 Hm1) as [-> | [-> | [-> | [-> | [-> | [-> | [-> | [-> | [->
                                   | [-> | [-> | ->]]]]]]]]]]];
    destruct (month_cases m2 Hm2) as [-> | [-> | [-> | [-> | [-> | [-> | [-> | [-> | [->
                                     | [-> | [-> | ->]]]]]]]]]]];
    try lia; destruct (Date.is_leap y); simpl in *; lia.
Qed.

(** X9. The dates [parse_perf] builds are ordered by their ordinal as they are
    in the calendar, so that two of them are at day distance 0 exactly when
    they are the same date; every ordinal lies between those of [date.min]
    and of 9999-12-31. *)
Theorem day_distance_separates_dates :
  forall a b,
    Date.valid (Date.year a) (Date.month a) (Date.day a) = true ->
    Date.valid (Date.year b) (Date.month b) (Date.day b) = true ->
    (Date.toordinal a < Date.toordinal b
     <-> Date.year a < Date.year b
         \/ (Date.year a = Date.year b
             /\ (Date.month a < Date.month b
                 \/ (Date.month a = Date.month b /\ Date.day a < Date.day b))))
    /\ (days_apart a b = 0 <-> a = b)
    /\ Date.toordinal Date.min <= Date.toordinal a <= 3652059.
Proof.
  intros [ya ma da] [yb mb db]. simpl. intros Ha Hb.
  pose proof (day_of_year_bounds _ _ _ Ha) as Hda.
  pose proof (day_of_year_bounds _ _ _ Hb) as Hdb.
  pose proof (days_before_year_succ ya) as Hsa.
  pose proof (days_before_year_succ yb) as Hsb.
  assert (forall y1 m1 d1 y2 m2 d2,
            Date.valid y1 m1 d1 = true -> Date.valid y2 m2 d2 = true ->
            y1 < y2 \/ (y1 = y2 /\ (m1 < m2 \/ (m1 = m2 /\ d1 < d2))) ->
            Date.toordinal (Date.mk y1 m1 d1) < Date.toordinal (Date.mk y2 m2 d2))
    as Hlt.
  { intros y1 m1 d1 y2 m2 d2 H1 H2 Hord. unfold Date.toordinal. simpl.
    pose proof (day_of_year_bounds _ _ _ H1).
    pose proof (day_of_year_bounds _ _ _ H2).
    destruct Hord as [Hy | [-> [Hm | [-> Hd]]]].
    - pose proof (days_before_year_succ y1).
      pose proof (days_before_year_mono (y1 + 1) y2 ltac:(lia)).
      destruct (Date.is_leap y1); lia.
    - pose proof (day_of_year_mono _ _ _ _ _ H1 H2 Hm). lia.
    - lia. }
  assert (Date.toordinal (Date.mk ya ma da) < Date.toordinal (Date.mk yb mb db)
          <-> ya < yb \/ (ya = yb /\ (ma < mb \/ (ma = mb /\ da < db)))) as Hiff.
  { split; [| apply Hlt; assumption].
    intros Hord.
    destruct (Z.lt_trichotomy ya yb) as [? | [-> | Hy]]; [auto | |].
    - destruct (Z.lt_trichotomy ma mb) as [? | [-> | Hm]]; [auto | |].
      + destruct (Z.lt_trichotomy da db) as [? | [-> | Hd]]; [auto | lia |].
        pose proof (Hlt yb mb db yb mb da Hb Ha ltac:(auto)). lia.
      + pose proof (Hlt yb mb db yb ma da Hb Ha ltac:(auto)). lia.
    - pose proof (Hlt yb mb db ya ma da Hb Ha ltac:(auto)). lia. }
  split; [exact Hiff | split].
  - unfold days_apart, Date.sub. split.
    + intros H0.
      assert (Date.toordinal (Date.mk ya ma da) = Date.toordinal (Date.mk yb mb db))
        as Heq by lia.
      destruct (Z.lt_trichotomy ya yb) as [Hy | [-> | Hy]].
      * pose proof (Hlt ya ma da yb mb db Ha Hb ltac:(auto)). lia.
      * destruct (Z.lt_trichotomy ma mb) as [Hm | [-> | Hm]].
        -- pose proof (Hlt yb ma da yb mb db Ha Hb ltac:(auto)). lia.
        -- destruct (Z.lt_trichotomy da db) as [Hd | [-> | Hd]]; [| reflexivity |].
           ++ pose proof (Hlt yb mb da yb mb db Ha Hb ltac:(auto)). lia.
           ++ pose proof (Hlt yb mb db yb mb da Hb Ha ltac:(auto)). lia.
        -- pose proof (Hlt yb mb db yb ma da Hb Ha ltac:(auto)). lia.
      * pose proof (Hlt yb mb db ya ma da Hb Ha ltac:(auto)). lia.
    + intros ->. lia.
  - change (Date.toordinal Date.min) with 1. unfold Date.toordinal. simpl.
    apply valid_bounds in Ha as (Hy & _).
    pose proof (days_before_year_mono 1 ya ltac:(lia)) as Hlo.
    pose proof (days_before_year_mono ya 9999 ltac:(lia)) as Hhi.
    change (Date.days_before_year 1) with 0 in Hlo.
    change (Date.days_before_year 9999) with 3651694 in Hhi.
    destruct (Z.eq_dec ya 9999) as [-> | Hne].
    + change (Date.is_leap 9999) with false in Hda. lia.
    + destruct (Date.is_leap ya); lia.
Qed.

(** ** Further properties of the collection code *)

Section Collecting.

Variable Env : Type.
Variable remote : string -> Env -> outcome (list track) * Env.

Implicit Types (w : world Env) (c : counters) (user filename : string).

(** X10. [get_puzzle_history] never touches the cache or the files. It asks the
    remote service once, or, exactly when the first answer is a 429, twice
    with one sleep of 61 seconds in between. An exception escapes it only as
    a response error other than 404 and 429 at the first attempt, or as
    whatever the retry after a 429 raises; a 404 or any other kind of
    exception at the first attempt never escapes. *)
Theorem get_puzzle_history_effects :
  forall user w o w1,
    get_puzzle_history remote user w = (o, w1) ->
    data w1 = data w /\ disk w1 = disk w
    /\ (exists evs,
          trace w1 = trace w ++ evs /\ saves evs = []
          /\ ((fst (remote user (env w)) <> Raise (ResponseError 429)
               /\ requests evs = [Request user] /\ sleeps evs = [])
              \/ (fst (remote user (env w)) = Raise (ResponseError 429)
                  /\ requests evs = [Request user; Request user]
                  /\ sleeps evs = [Sleep 61])))
    /\ (forall e, o = Raise e ->
          (exists status_code e1,
              remote user (env w) = (Raise (ResponseError status_code), e1)
              /\ status_code <> 404 /\ status_code <> 429
              /\ e = ResponseError status_code)
          \/ (exists e1 e2,
                remote user (env w) = (Raise (ResponseError 429), e1)
                /\ remote user e1 = (Raise e, e2))).
Proof.
  intros user w o w1 H.
  destruct (get_puzzle_history_quiet Env remote _ _ _ _ H) as (Hd & Hk & _).
  split; [exact Hd | split; [exact Hk |]].
  destruct (remote user (env w)) as [[history | [status_code | err]] e1] eqn:Hr.
  - rewrite (get_puzzle_history_found Env remote _ _ _ _ Hr) in H. injection H as <- <-.
    split; [| discriminate].
    eexists. split; [reflexivity | split; [reflexivity |]].
    left. repeat split. discriminate.
  - destruct (decide (status_code = 404)) as [-> | H404];
      [| destruct (decide (status_code = 429)) as [-> | H429]].
    + rewrite (get_puzzle_history_404 Env remote _ _ _ Hr) in H. injection H as <- <-.
      split; [| discriminate].
      eexists. split; [reflexivity | split; [reflexivity |]].
      left. repeat split. discriminate.
    + rewrite (get_puzzle_history_429 Env remote _ _ _ Hr) in H. injection H as <- <-.
      split.
      * eexists. split; [reflexivity | split; [reflexivity |]].
        right. repeat split.
      * intros e He. right. exists e1, (snd (remote user e1)).
        split; [reflexivity |].
        destruct (remote user e1) as [[history | e'] e2]; simpl in *; congruence.
    + rewrite (get_puzzle_history_fatal Env remote _ _ _ _ Hr H404 H429) in H.
      injection H as <- <-. split.
      * eexists. split; [reflexivity | split; [reflexivity |]].
        left. repeat split. simpl. congruence.
      * intros e [= <-]. left. exists status_code, e1. auto.
  - rewrite (get_puzzle_history_other Env remote _ _ _ _ Hr) in H. injection H as <- <-.
    split; [| discriminate].
    eexists. split; [reflexivity | split; [reflexivity |]].
    left. repeat split. discriminate.
Qed.

Lemma no_puzzles_filter history :
  no_puzzles history ->
  filter (fun h => Track.name h = "Puzzles"%string) history = [].
Proof.
  induction 1 as [|x l Hx _ IH]; [reflexivity |].
  rewrite filter_cons.
  destruct (decide (Track.name x = "Puzzles"%string)); [contradiction | exact IH].
Qed.

Lemma puzzle_points_first before t after :
  no_puzzles before ->
  Track.name t = "Puzzles"%string ->
  puzzle_points (before ++ t :: after) = Some (Track.points t).
Proof.
  intros Hb Ht. unfold puzzle_points. rewrite filter_app, filter_cons.
  destruct (decide (Track.name t = "Puzzles"%string)); [| contradiction].
  now rewrite (no_puzzles_filter _ Hb).
Qed.

(** X11. Of several tracks named "Puzzles" the first one is the history: its
    points are returned, whatever comes after it. *)
Theorem first_puzzles_track_wins :
  forall user w before t after e1,
    remote user (env w) = (Ret (before ++ t :: after), e1) ->
    no_puzzles before ->
    Track.name t = "Puzzles"%string ->
    get_puzzle_history remote user w
    = (Ret (Some (Track.points t)),
       mkWorld e1 (data w) (disk w) (trace w ++ [Request user])).
Proof.
  intros user w before t after e1 Hr Hb Ht.
  rewrite (get_puzzle_history_found Env remote _ _ _ _ Hr).
  now rewrite (puzzle_points_first _ _ _ Hb Ht).
Qed.

(** X12. A user whose "Puzzles" track has no point is cached with the empty
    history, not with [None]: the user is not counted as having data, is a
    cache hit from then on, and is dropped by [parse_perf]. *)
Theorem empty_history_cached_as_empty :
  forall filename user c w before t after e1,
    lookup_user user (data w) = None ->
    remote user (env w) = (Ret (before ++ t :: after), e1) ->
    no_puzzles before ->
    Track.name t = "Puzzles"%string ->
    Track.points t = [] ->
    let w1 :=
      progress (miss c (Some []))
        (committed filename (user, Some [])
           (mkWorld e1 (data w) (disk w) (trace w ++ [Request user]))) in
    fetch_body remote filename user c w = (Ret (miss c (Some [])), w1)
    /\ withdata (miss c (Some [])) = withdata c
    /\ data w1 = data w ++ [(user, Some [])]
    /\ lookup_user user (data w1) = Some (Some [])
    /\ (forall l1 l2,
          parse_perf (l1 ++ (user, Some []) :: l2) = parse_perf (l1 ++ l2)).
Proof.
  intros filename user c w before t after e1 Hl Hr Hb Ht Hp w1.
  pose proof (get_puzzle_history_found Env remote _ _ _ _ Hr) as Hg.
  rewrite (puzzle_points_first _ _ _ Hb Ht), Hp in Hg.
  assert (data w1 = data w ++ [(user, Some [])]) as Hd
      by (unfold w1; now rewrite progress_data).
  split; [exact (fetch_body_miss Env remote filename user c w _ _ Hl Hg) |].
  split; [reflexivity | split; [exact Hd | split]].
  - rewrite Hd, lookup_user_app, Hl. simpl.
    destruct (decide (user = user)); [reflexivity | contradiction].
  - intros l1 l2. rewrite !parse_perf_app. reflexivity.
Qed.

(** X13. With a limit of 0 or less, or without candidates, [fetch_perf] asks
    nothing and writes nothing: it logs the size of the cache and returns
    it. *)
Theorem nothing_to_fetch :
  forall num filename users w,
    num <= 0 \/ users = [] ->
    fetch_perf remote num filename users w
    = (Ret (data w), emit (Log Info (SavedPerf (Z.of_nat (length (data w))))) w).
Proof.
  intros num filename users w H.
  assert (fetch_loop remote num filename users (mkCounters 0 0 0) w
          = (Ret (mkCounters 0 0 0), w)) as Hloop.
  { destruct H as [H | ->]; [| reflexivity].
    apply fetch_loop_stop. simpl. lia. }
  unfold fetch_perf. unfold bind at 1. rewrite Hloop. reflexivity.
Qed.

Lemma spent_refl w : spent 0 0 0 w w.
Proof.
  exists []. rewrite app_nil_r. repeat split; simpl; auto.
Qed.

Lemma spent_weaken r s v r' s' v' w w' :
  (r <= r')%nat -> (s <= s')%nat -> (v <= v')%nat ->
  spent r s v w w' -> spent r' s' v' w w'.
Proof.
  intros Hr Hs Hv (evs & Ht & H1 & H2 & H3 & H4).
  exists evs. repeat split; auto; lia.
Qed.

Lemma spent_trans r1 s1 v1 r2 s2 v2 w1 w2 w3 :
  spent r1 s1 v1 w1 w2 -> spent r2 s2 v2 w2 w3 ->
  spent (r1 + r2) (s1 + s2) (v1 + v2) w1 w3.
Proof.
  intros (ev1 & Ht1 & Hr1 & Hs1 & Hf1 & Hv1) (ev2 & Ht2 & Hr2 & Hs2 & Hf2 & Hv2).
  exists (ev1 ++ ev2). rewrite Ht2, Ht1, app_assoc.
  rewrite requests_app, sleeps_app, saves_app, !length_app.
  repeat split; try lia. apply Forall_app. auto.
Qed.

Lemma spent_progress c w : spent 0 0 0 w (progress c w).
Proof.
  unfold progress. destruct (checked c mod 10 =? 0); [| apply spent_refl].
  eexists. split; [reflexivity |]. repeat split; simpl; auto.
Qed.

Lemma spent_committed filename e w : spent 0 0 1 w (committed filename e w).
Proof.
  eexists. split; [reflexivity |]. repeat split; simpl; auto.
Qed.

Lemma spent_get_puzzle_history user w o w1 :
  get_puzzle_history remote user w = (o, w1) -> spent 2 1 0 w w1.
Proof.
  intros H.
  destruct (remote user (env w)) as [[history | [status_code | err]] e1] eqn:Hr.
  - rewrite (get_puzzle_history_found Env remote _ _ _ _ Hr) in H.
    injection H as _ <-. eexists. split; [reflexivity |]. repeat split; simpl; auto.
  - destruct (decide (status_code = 404)) as [-> | H404];
      [| destruct (decide (status_code = 429)) as [-> | H429]].
    + rewrite (get_puzzle_history_404 Env remote _ _ _ Hr) in H.
      injection H as _ <-. eexists. split; [reflexivity |]. repeat split; simpl; auto.
    + rewrite (get_puzzle_history_429 Env remote _ _ _ Hr) in H.
      injection H as _ <-. eexists. split; [reflexivity |]. repeat split; simpl; auto.
    + rewrite (get_puzzle_history_fatal Env remote _ _ _ _ Hr H404 H429) in H.
      injection H as _ <-. eexists. split; [reflexivity |]. repeat split; simpl; auto.
  - rewrite (get_puzzle_history_other Env remote _ _ _ _ Hr) in H.
    injection H as _ <-. eexists. split; [reflexivity |]. repeat split; simpl; auto.
Qed.

Lemma spent_fetch_body filename user c w o w' :
  fetch_body remote filename user c w = (o, w') -> spent 2 1 1 w w'.
Proof.
  intros H. apply fetch_body_cases in H
    as [(p & _ & _ & ->) | [(h & w1 & _ & Hg & _ & ->) | (e & _ & Hg & _)]].
  - eapply spent_weaken; [| | | apply spent_progress]; lia.
  - apply spent_get_puzzle_history in Hg.
    pose proof (spent_trans _ _ _ _ _ _ _ _ _ Hg
                  (spent_trans _ _ _ _ _ _ _ _ _
                     (spent_committed filename (user, h) w1)
                     (spent_progress (miss c h) _))) as Hs.
    exact Hs.
  - apply spent_get_puzzle_history in Hg.
    eapply spent_weaken; [| | | exact Hg]; lia.
Qed.

Lemma examined_length num users k :
  (length (examined num users k) <= length users)%nat
  /\ Z.of_nat (length (examined num users k)) <= Z.max 0 (num - k).
Proof.
  revert k. induction users as [|user rest IH]; intros k; simpl; [lia |].
  destruct (Z.leb_spec num k); simpl; [lia |].
  destruct (IH (k + 1)). lia.
Qed.

Lemma fetch_loop_cost num filename users c w o w' :
  fetch_loop remote num filename users c w = (o, w') ->
  cost (length (examined num users (checked c))) w w'.
Proof.
  unfold cost. revert c w. induction users as [|user rest IH]; intros c w.
  - intros [= _ <-]. apply spent_refl.
  - simpl examined. destruct (Z.leb_spec num (checked c)) as [Hstop | Hgo].
    + rewrite fetch_loop_stop by exact Hstop. intros [= _ <-]. apply spent_refl.
    + rewrite fetch_loop_step by exact Hgo.
      destruct (fetch_body remote filename user c w) as [[c1 | e] w1] eqn:Hb.
      * intros Hl. destruct (fetch_body_checked _ _ _ _ _ _ _ _ Hb) as [Hc1 _].
        apply IH in Hl. rewrite Hc1 in Hl. apply spent_fetch_body in Hb.
        pose proof (spent_trans _ _ _ _ _ _ _ _ _ Hb Hl) as Hs.
        eapply spent_weaken; [| | | exact Hs]; simpl; lia.
      * intros [= _ <-]. apply spent_fetch_body in Hb.
        eapply spent_weaken; [| | | exact Hb]; simpl; lia.
Qed.

(** X14. A run of [fetch_perf], however it ends, examines at most [num]
    candidates and no more than there are, and for each of them it asks the
    remote service at most twice, sleeps at most once, for 61 seconds, and
    writes the cache at most once. *)
Theorem fetch_perf_bounded_cost :
  forall num filename users w o w',
    fetch_perf remote num filename users w = (o, w') ->
    let k := length (examined num users 0) in
    (k <= length users)%nat
    /\ Z.of_nat k <= Z.max 0 num
    /\ exists evs,
         trace w' = trace w ++ evs
         /\ (length (requests evs) <= 2 * k)%nat
         /\ (length (sleeps evs) <= k)%nat
         /\ Forall (fun e => e = Sleep 61) (sleeps evs)
         /\ (length (saves evs) <= k)%nat.
Proof.
  intros num filename users w o w' H k.
  destruct (examined_length num users 0) as [Hk1 Hk2].
  split; [exact Hk1 | split; [fold k in Hk2; lia |]].
  apply fetch_perf_cases in H as [(c & w1 & Hl & _ & ->) | (e & Hl & _)].
  - apply fetch_loop_cost in Hl. simpl in Hl. fold k in Hl.
    assert (spent 0 0 0 w1
              (emit (Log Info (SavedPerf (Z.of_nat (length (data w1))))) w1)) as He.
    { eexists. split; [reflexivity |]. repeat split; simpl; auto. }
    pose proof (spent_trans _ _ _ _ _ _ _ _ _ Hl He) as Hs.
    eapply spent_weaken in Hs; [exact Hs | lia | lia | lia].
  - apply fetch_loop_cost in Hl. exact Hl.
Qed.

Lemma fetch_loop_adds num filename users c w c' w' :
  fetch_loop remote num filename users c w = (Ret c', w') ->
  exists new,
    data w' = data w ++ new
    /\ NoDup (map fst new)
    /\ (forall u, u ∈ map fst new
                  <-> u ∈ examined num users (checked c)
                      /\ lookup_user u (data w) = None)
    /\ checked c' = checked c + Z.of_nat (length (examined num users (checked c))).
Proof.
  revert c w. induction users as [|user rest IH]; intros c w.
  - intros [= <- <-]. exists []. rewrite app_nil_r. simpl.
    split; [reflexivity | split; [constructor | split; [| lia]]].
    intros u. split; [intros H; now apply elem_of_nil in H |].
    intros [H _]. now apply elem_of_nil in H.
  - simpl examined. destruct (Z.leb_spec num (checked c)) as [Hstop | Hgo].
    + rewrite fetch_loop_stop by exact Hstop. intros [= <- <-].
      exists []. rewrite app_nil_r. simpl.
      split; [reflexivity | split; [constructor | split; [| lia]]].
      intros u. split; [intros H; now apply elem_of_nil in H |].
      intros [H _]. now apply elem_of_nil in H.
    + rewrite fetch_loop_step by exact Hgo.
      destruct (fetch_body remote filename user c w) as [[c1 | e] w1] eqn:Hb;
        [| discriminate].
      intros Hl. destruct (fetch_body_checked _ _ _ _ _ _ _ _ Hb) as [Hc1 _].
      destruct (IH _ _ Hl) as (new & Hd & Hnd & Hmem & Hck). rewrite Hc1 in *.
      apply fetch_body_cases in Hb
        as [(p & Hlk & _ & ->) | [(h & w0 & Hlk & Hg & _ & ->) | (e & _ & _ & [=])]].
      * rewrite progress_data in Hd, Hmem.
        exists new. split; [exact Hd | split; [exact Hnd | split]].
        -- intros u. rewrite Hmem, elem_of_cons. split.
           ++ intros [? ?]. auto.
           ++ intros [[-> | ?] ?]; [congruence | auto].
        -- simpl. lia.
      * rewrite progress_data in Hd, Hmem. unfold committed in Hd, Hmem.
        simpl in Hd, Hmem.
        destruct (get_puzzle_history_quiet _ _ _ _ _ _ Hg) as (Hd0 & _).
        rewrite Hd0 in Hd, Hmem.
        assert (forall u, lookup_user u (data w ++ [(user, h)]) = None
                          <-> lookup_user u (data w) = None /\ u <> user) as Hlk'.
        { intros u. rewrite lookup_user_app. simpl.
          destruct (lookup_user u (data w)); [split; [discriminate | intros [? _]; discriminate] |].
          destruct (decide (user = u)) as [-> | Hne];
            [split; [discriminate | intros [_ ?]; contradiction] |].
          split; [intros _; split; [reflexivity | congruence] | reflexivity]. }
        exists ((user, h) :: new). rewrite Hd, <- app_assoc. simpl.
        split; [reflexivity | split; [| split]].
        -- constructor; [| exact Hnd]. rewrite Hmem, Hlk'. tauto.
        -- intros u. rewrite !elem_of_cons, Hmem, Hlk'. split.
           ++ intros [-> | (? & ? & ?)]; auto.
           ++ intros [[-> | ?] ?]; [auto |].
              destruct (decide (u = user)) as [-> | ?]; auto.
        -- lia.
Qed.

(** X15. A run of [fetch_perf] that returns has examined the candidates up to
    the limit. It returns the cache, which is the cache it started from
    followed by one new entry for each examined candidate that was not
    cached, and for no one else; every examined candidate is in it. *)
Theorem fetch_perf_adds_examined :
  forall num filename users w r w',
    fetch_perf remote num filename users w = (Ret r, w') ->
    r = data w'
    /\ (forall u, u ∈ examined num users 0 -> lookup_user u r <> None)
    /\ exists new,
         r = data w ++ new
         /\ NoDup (map fst new)
         /\ (forall u, u ∈ map fst new
                       <-> u ∈ examined num users 0 /\ lookup_user u (data w) = None).
Proof.
  intros num filename users w r w' H.
  apply fetch_perf_cases in H as [(c & w1 & Hl & [= ->] & ->) | (e & _ & [=])].
  split; [reflexivity | split].
  - intros u Hu. eapply (fetch_loop_caches_examined _ _ _ _ _ _ _ _ _ Hl). exact Hu.
  - destruct (fetch_loop_adds _ _ _ _ _ _ _ Hl) as (new & Hd & Hnd & Hmem & _).
    exists new. auto.
Qed.

End Collecting.

(** ** [analyze]: what [period] counts and when it raises *)

Lemma period_fold ds a :
  fold_left period_step ds a
  = mkTally (total a + sum ds)
            (increased a + Z.of_nat (length (positives ds)))
            (decreased a + Z.of_nat (length (negatives ds)))
            (inc_sum a + sum (positives ds))
            (dec_sum a + sum (negatives ds)).
Proof.
  revert a. induction ds as [|d ds IH]; intros a; simpl.
  - destruct a. simpl. f_equal; lia.
  - rewrite IH. unfold period_step, positives, negatives. simpl.
    destruct (Z.ltb_spec 0 d); [| destruct (Z.ltb_spec d 0)]; simpl.
    + destruct (Z.ltb_spec d 0); [lia |]. simpl. f_equal; lia.
    + f_equal; lia.
    + f_equal; lia.
Qed.

Lemma positives_bounds ds :
  Z.of_nat (length (positives ds)) <= sum (positives ds)
  /\ sum (negatives ds) <= - Z.of_nat (length (negatives ds))
  /\ sum ds = sum (positives ds) + sum (negatives ds)
  /\ (length (positives ds) + length (negatives ds) <= length ds)%nat.
Proof.
  induction ds as [|d ds IH]; simpl; [lia |].
  unfold positives, negatives in *. simpl.
  destruct (Z.ltb_spec 0 d), (Z.ltb_spec d 0); simpl; lia.
Qed.

(** X17. What the loop of [period] leaves in its five variables: the sum of the
    deltas, the number and the sum of the strictly positive ones, the number
    and the sum of the strictly negative ones. The total is the sum of the
    two partial sums, a delta of 0 counts on neither side, and on the deltas
    of a sample a tuple counts as increased exactly when its start score is
    strictly greater than its end score. *)
Theorem period_loop_counts :
  forall ds,
    period_loop ds
    = mkTally (sum ds)
              (Z.of_nat (length (positives ds))) (Z.of_nat (length (negatives ds)))
              (sum (positives ds)) (sum (negatives ds))
    /\ total (period_loop ds) = inc_sum (period_loop ds) + dec_sum (period_loop ds)
    /\ increased (period_loop ds) + decreased (period_loop ds)
       <= Z.of_nat (length ds)
    /\ increased (period_loop ds) <= inc_sum (period_loop ds)
    /\ dec_sum (period_loop ds) <= - decreased (period_loop ds)
    /\ (forall values,
          increased (period_loop (deltas values))
          = Z.of_nat (length (List.filter
                                (fun x => let '(s, e, _, _) := x in e <? s) values))
          /\ decreased (period_loop (deltas values))
             = Z.of_nat (length (List.filter
                                   (fun x => let '(s, e, _, _) := x in s <? e) values))).
Proof.
  intros ds.
  assert (forall l, period_loop l
                    = mkTally (sum l)
                        (Z.of_nat (length (positives l)))
                        (Z.of_nat (length (negatives l)))
                        (sum (positives l)) (sum (negatives l))) as Heq.
  { intros l. unfold period_loop. rewrite period_fold. reflexivity. }
  split; [apply Heq |]. rewrite Heq. simpl.
  destruct (positives_bounds ds) as (H1 & H2 & H3 & H4).
  repeat split; try lia.
  - rewrite Heq. simpl. f_equal. unfold positives, deltas.
    induction values as [|[[[s e] rs] re] values IH]; simpl; [reflexivity |].
    destruct (Z.ltb_spec 0 (s - e)), (Z.ltb_spec e s); simpl; lia.
  - rewrite Heq. simpl. f_equal. unfold negatives, deltas.
    induction values as [|[[[s e] rs] re] values IH]; simpl; [reflexivity |].
    destruct (Z.ltb_spec (s - e) 0), (Z.ltb_spec s e); simpl; lia.
Qed.

Lemma positives_nil ds : positives ds = [] <-> Forall (fun d => d <= 0) ds.
Proof.
  unfold positives. induction ds as [|d ds IH]; simpl.
  - split; [constructor | reflexivity].
  - destruct (Z.ltb_spec 0 d); rewrite Forall_cons.
    + split; [discriminate | lia].
    + rewrite IH. split; [intros ?; split; [lia | assumption] | tauto].
Qed.

Lemma negatives_nil ds : negatives ds = [] <-> Forall (fun d => 0 <= d) ds.
Proof.
  unfold negatives. induction ds as [|d ds IH]; simpl.
  - split; [constructor | reflexivity].
  - destruct (Z.ltb_spec d 0); rewrite Forall_cons.
    + split; [discriminate | lia].
    + rewrite IH. split; [intros ?; split; [lia | assumption] | tauto].
Qed.

(** X18. [period] raises its [ZeroDivisionError] exactly when no delta is
    strictly positive or no delta is strictly negative, the empty list of
    deltas included; otherwise it returns. *)
Theorem period_raises_without_both_signs :
  forall (float : Type) (truediv : Z -> Z -> float) (int_of : float -> Z) ds,
    (period float truediv int_of ds = None
     <-> Forall (fun d => d <= 0) ds \/ Forall (fun d => 0 <= d) ds)
    /\ (period float truediv int_of [] = None)
    /\ (forall d1 d2,
          d1 ∈ ds -> d2 ∈ ds -> 0 < d1 -> d2 < 0 ->
          exists r, period float truediv int_of ds = Some r).
Proof.
  intros float truediv int_of ds.
  assert (period float truediv int_of ds = None
          <-> Forall (fun d => d <= 0) ds \/ Forall (fun d => 0 <= d) ds) as Hiff.
  { unfold period. unfold period_loop. rewrite period_fold. simpl.
    rewrite <- positives_nil, <- negatives_nil.
    destruct (positives_bounds ds) as (_ & _ & _ & Hlen).
    destruct (positives ds) as [|p ps] eqn:Hp, (negatives ds) as [|q qs] eqn:Hq;
      simpl in *.
    - rewrite orb_true_r. simpl. tauto.
    - rewrite orb_true_r. simpl. tauto.
    - rewrite orb_true_r. tauto.
    - destruct (Z.eqb_spec (Z.of_nat (length ds)) 0); [lia |]. simpl.
      split; [discriminate | intros [? | ?]; discriminate]. }
  split; [exact Hiff | split; [reflexivity |]].
  intros d1 d2 H1 H2 Hp Hn.
  destruct (period float truediv int_of ds) as [r|] eqn:Hr; [eauto |].
  destruct (proj1 Hiff eq_refl) as [Hall | Hall]; rewrite Forall_forall in Hall.
  - specialize (Hall _ H1). simpl in Hall. lia.
  - specialize (Hall _ H2). simpl in Hall. lia.
Qed.

(** ** Finding the candidates *)

Section Crawl.

Variable Env : Type.
Variable tournaments_get : Env -> outcome (list (string * list tournament)) * Env.
Variable stream_results : string -> Env -> outcome (list result) * Env.
Variable read_users : string -> Env -> outcome (list string) * Env.

Implicit Types (s : session Env) (w : world Env).

(** A remote operation under [retry] leaves the cache and the files alone. *)
Lemma retry_call_quiet {A} what (op : Env -> outcome A * Env) w o w' :
  retry (call what op) w = (o, w') ->
  quiet w w' /\ exists evs, trace w' = trace w ++ evs.
Proof.
  destruct (op (env w)) as [[a | e] e1] eqn:Hop.
  - rewrite (retry_returns Env _ w a
               (mkWorld e1 (data w) (disk w) (trace w ++ [Request what])))
      by (unfold call; now rewrite Hop).
    intros [= _ <-]. split; [| eauto].
    repeat split. simpl. rewrite saves_app. apply app_nil_r.
  - destruct (decide (e = ResponseError 429)) as [-> | Hne].
    + rewrite (retry_throttled Env _ w
                 (mkWorld e1 (data w) (disk w) (trace w ++ [Request what])))
        by (unfold call; now rewrite Hop).
      unfold call, emit. simpl. destruct (op e1) as [r e2]. intros [= _ <-].
      split; [| rewrite <- !app_assoc; eauto].
      repeat split. simpl. rewrite !saves_app. simpl. now rewrite !app_nil_r.
    + rewrite (retry_raises Env _ w e
                 (mkWorld e1 (data w) (disk w) (trace w ++ [Request what])))
        by (first [exact Hne | unfold call; now rewrite Hop]).
      intros [= _ <-]. split; [| eauto].
      repeat split. simpl. rewrite saves_app. apply app_nil_r.
Qed.

Lemma retry_call_answers {A} what (op : Env -> outcome A * Env) w a :
  op (env w) = (Ret a, env w) ->
  retry (call what op) w
  = (Ret a, mkWorld (env w) (data w) (disk w) (trace w ++ [Request what])).
Proof. intros H. apply retry_returns. unfold call. now rewrite H. Qed.

Lemma lift_answers {A} what (op : Env -> outcome A * Env) s a :
  op (env (world_of s)) = (Ret a, env (world_of s)) ->
  lift (retry (call what op)) s
  = (Ret a,
     mkSession (mkWorld (env (world_of s)) (data (world_of s)) (disk (world_of s))
                        (trace (world_of s) ++ [Request what]))
               (journal s ++ [Core (Request what)])).
Proof.
  intros H. unfold lift. rewrite (retry_call_answers _ _ _ _ H). simpl.
  now rewrite drop_app_length.
Qed.

(** Two sessions between which nothing was appended to the cache and
    nothing was written. *)
Lemma crawl_tournaments_quiet tstate users s o s' :
  crawl_tournaments stream_results tstate users s = (o, s') ->
  quiet (world_of s) (world_of s').
Proof.
  revert users s. induction tstate as [|t rest IH]; intros users s; simpl.
  - intros [= _ <-]. apply quiet_refl.
  - unfold sbind at 1. unfold lift.
    destruct (retry (call (Tournament.id t) (stream_results (Tournament.id t)))
                (world_of s)) as [[results | e] w1] eqn:Hr.
    + apply retry_call_quiet in Hr as [Hq _]. unfold sbind, noted. simpl.
      intros H. apply IH in H. simpl in H.
      destruct Hq as (?&?&?), H as (?&?&?). repeat split; congruence.
    + apply retry_call_quiet in Hr as [Hq _]. intros [= _ <-]. exact Hq.
Qed.

Lemma crawl_states_quiet states users s o s' :
  crawl_states stream_results states users s = (o, s') ->
  quiet (world_of s) (world_of s').
Proof.
  revert users s. induction states as [|[name tstate] rest IH]; intros users s; simpl.
  - intros [= _ <-]. apply quiet_refl.
  - unfold sbind.
    destruct (crawl_tournaments stream_results tstate users s) as [[u1 | e] s1] eqn:Hc.
    + apply crawl_tournaments_quiet in Hc. intros H. apply IH in H.
      destruct Hc as (?&?&?), H as (?&?&?). repeat split; congruence.
    + apply crawl_tournaments_quiet in Hc. intros [= _ <-]. exact Hc.
Qed.

Lemma get_tournament_users_quiet s o s' :
  get_tournament_users tournaments_get stream_results s = (o, s') ->
  quiet (world_of s) (world_of s').
Proof.
  unfold get_tournament_users, sbind, noted, lift. simpl.
  destruct (retry (call "tournaments" tournaments_get) (world_of s))
    as [[states | e] w1] eqn:Hr.
  - apply retry_call_quiet in Hr as [Hq _].
    destruct (crawl_states stream_results states ∅ _) as [[users | e] s1] eqn:Hc.
    + apply crawl_states_quiet in Hc. simpl in Hc. unfold sret. intros [= _ <-].
      destruct Hq as (?&?&?), Hc as (?&?&?). repeat split; congruence.
    + apply crawl_states_quiet in Hc. simpl in Hc. intros [= _ <-].
      destruct Hq as (?&?&?), Hc as (?&?&?). repeat split; congruence.
  - apply retry_call_quiet in Hr as [Hq _]. intros [= _ <-]. exact Hq.
Qed.

Lemma fetch_tournament_users_raises filename s o s' :
  fetch_tournament_users tournaments_get stream_results filename s = (o, s') ->
  exists e, o = Raise e.
Proof.
  unfold fetch_tournament_users. unfold sbind at 1.
  destruct (get_tournament_users tournaments_get stream_results s) as [[users | e] s1].
  - unfold sbind, sraise. intros [= <- _]. eauto.
  - intros [= <- _]. eauto.
Qed.

(** X20. [fetch_tournament_users] never returns and never saves: once the crawl
    has returned, the call [save(users)] raises a [TypeError]; and whatever
    the crawl does, the cache and the files are left as they were. *)
Theorem user_list_never_saved :
  forall filename s o s',
    fetch_tournament_users tournaments_get stream_results filename s = (o, s') ->
    (exists e, o = Raise e)
    /\ (forall users s1,
          get_tournament_users tournaments_get stream_results s = (Ret users, s1) ->
          o = Raise TypeError /\ s' = s1)
    /\ data (world_of s') = data (world_of s)
    /\ disk (world_of s') = disk (world_of s)
    /\ saves (trace (world_of s')) = saves (trace (world_of s)).
Proof.
  intros filename s o s'. unfold fetch_tournament_users. unfold sbind at 1.
  destruct (get_tournament_users tournaments_get stream_results s)
    as [[users | e] s1] eqn:Hg; apply get_tournament_users_quiet in Hg.
  - unfold sbind, sraise. intros [= <- <-].
    split; [eauto | split; [intros ? ? [= _ <-]; auto | exact Hg]].
  - intros [= <- <-]. split; [eauto | split; [discriminate | exact Hg]].
Qed.

(** X21. [get_users] returns only what the file of user names holds: when the
    file is read, its content is returned and the remote service is not
    asked; when it cannot be read, the error is raised again if
    [cached_only] is set, and otherwise the call ends with an exception
    after the crawl, never with a list. *)
Theorem get_users_needs_the_file :
  forall filename cached_only s,
    let w := world_of s in
    (forall users e1,
       read_users filename (env w) = (Ret users, e1) ->
       get_users tournaments_get stream_results read_users filename cached_only s
       = (Ret users,
          mkSession (mkWorld e1 (data w) (disk w) (trace w))
                    (journal s ++ [Noted Info (ReadUsers (Z.of_nat (length users)))])))
    /\ (forall e e1,
          read_users filename (env w) = (Raise e, e1) ->
          get_users tournaments_get stream_results read_users filename true s
          = (Raise e, mkSession (mkWorld e1 (data w) (disk w) (trace w)) (journal s)))
    /\ (forall users s',
          get_users tournaments_get stream_results read_users filename cached_only s
          = (Ret users, s') ->
          exists e1, read_users filename (env w) = (Ret users, e1)).
Proof.
  intros filename cached_only s w.
  assert (forall users e1,
            read_users filename (env w) = (Ret users, e1) ->
            get_users tournaments_get stream_results read_users filename cached_only s
            = (Ret users,
               mkSession (mkWorld e1 (data w) (disk w) (trace w))
                 (journal s ++ [Noted Info (ReadUsers (Z.of_nat (length users)))])))
    as Hread.
  { intros users e1 Hr. unfold get_users, sbind, load_users. fold w. now rewrite Hr. }
  split; [exact Hread | split].
  - intros e e1 Hr. unfold get_users, sbind, load_users. fold w. now rewrite Hr.
  - intros users s' H.
    destruct (read_users filename (env w)) as [[users0 | e] e1] eqn:Hr.
    + rewrite (Hread _ _ eq_refl) in H. injection H as <- _. eauto.
    + exfalso. unfold get_users, sbind at 1, load_users in H. fold w in H.
      rewrite Hr in H. destruct cached_only; [discriminate |].
      apply fetch_tournament_users_raises in H. destruct H as [e' He']. discriminate.
Qed.

Lemma gathered_elem results_of ts users u :
  u ∈ gathered results_of ts users
  <-> u ∈ users
      \/ exists t r, t ∈ ts /\ r ∈ results_of (Tournament.id t)
                     /\ Result.username r = u.
Proof.
  unfold gathered. revert users. induction ts as [|t ts IH]; intros users; simpl.
  - split; [auto |]. intros [? | (t & r & Ht & _)]; [assumption |].
    now apply elem_of_nil in Ht.
  - rewrite IH, elem_of_union. unfold usernames.
    rewrite elem_of_list_to_set, list_elem_of_In, in_map_iff. split.
    + intros [[? | (r & Hr & Hin)] | (t' & r & Ht & Hr & Hu)].
      * auto.
      * right. exists t, r. split; [left | split; [now apply list_elem_of_In | exact Hr]].
      * right. exists t', r. split; [right; exact Ht | auto].
    + intros [? | (t' & r & Ht & Hr & Hu)]; [auto |].
      apply elem_of_cons in Ht as [-> | Ht].
      * left. right. exists r. split; [exact Hu | now apply list_elem_of_In].
      * right. exists t', r. auto.
Qed.

Section Answering.

(** The service answers every request, and its answers do not depend on
    what was asked before. *)
Variable states : list (string * list tournament).
Variable results_of : string -> list result.
Hypothesis tournaments_answered : forall e, tournaments_get e = (Ret states, e).
Hypothesis results_answered :
  forall tid e, stream_results tid e = (Ret (results_of tid), e).

Lemma crawl_tournaments_answered tstate users s :
  exists s',
    crawl_tournaments stream_results tstate users s
    = (Ret (gathered results_of tstate users), s')
    /\ quiet (world_of s) (world_of s')
    /\ omap request_of (journal s')
       = omap request_of (journal s) ++ map Tournament.id tstate.
Proof.
  revert users s. induction tstate as [|t rest IH]; intros users s; simpl.
  - exists s. split; [reflexivity | split; [apply quiet_refl |]].
    now rewrite app_nil_r.
  - unfold sbind at 1.
    rewrite (lift_answers _ _ s (results_of (Tournament.id t)))
      by apply results_answered.
    unfold sbind, noted. simpl.
    match goal with |- context [crawl_tournaments _ rest ?u ?s0] =>
      destruct (IH u s0) as (s' & Hrun & Hq & Hj) end.
    exists s'. split; [exact Hrun | split].
    + destruct Hq as (Hd & Hk & Hs). simpl in *. repeat split; auto.
      rewrite Hs, saves_app. apply app_nil_r.
    + rewrite Hj. simpl. rewrite !omap_app. simpl. now rewrite <- !app_assoc.
Qed.

Lemma crawl_states_answered l users s :
  exists s',
    crawl_states stream_results l users s
    = (Ret (gathered results_of (all_tournaments l) users), s')
    /\ quiet (world_of s) (world_of s')
    /\ omap request_of (journal s')
       = omap request_of (journal s) ++ map Tournament.id (all_tournaments l).
Proof.
  revert users s. induction l as [|[name tstate] rest IH]; intros users s; simpl.
  - exists s. split; [reflexivity | split; [apply quiet_refl |]].
    now rewrite app_nil_r.
  - unfold sbind.
    destruct (crawl_tournaments_answered tstate users s) as (s1 & -> & Hq1 & Hj1).
    destruct (IH (gathered results_of tstate users) s1) as (s' & Hrun & Hq & Hj).
    exists s'. unfold all_tournaments in *. simpl.
    unfold gathered in *. rewrite fold_left_app. split; [exact Hrun | split].
    + destruct Hq1 as (?&?&?), Hq as (?&?&?). repeat split; congruence.
    + rewrite Hj, Hj1, map_app. now rewrite <- app_assoc.
Qed.

(** X19. When the service answers every request, [get_tournament_users] returns
    each user name found in the results of some listed tournament, once, and
    no other name; it asks for the listing and then for the results of every
    tournament, in the order of the listing, and leaves the cache and the
    files as they were. *)
Theorem crawl_gathers_every_user :
  forall s,
    exists users s',
      get_tournament_users tournaments_get stream_results s = (Ret users, s')
      /\ NoDup users
      /\ (forall u,
            u ∈ users
            <-> exists t r,
                  t ∈ all_tournaments states
                  /\ r ∈ results_of (Tournament.id t)
                  /\ Result.username r = u)
      /\ omap request_of (journal s')
         = omap request_of (journal s)
           ++ "tournaments"%string :: map Tournament.id (all_tournaments states)
      /\ quiet (world_of s) (world_of s').
Proof.
  intros s. unfold get_tournament_users. unfold sbind at 1, noted.
  unfold sbind at 1.
  rewrite (lift_answers _ _ _ states) by apply tournaments_answered.
  unfold sbind, sret. simpl.
  match goal with |- context [crawl_states _ states ∅ ?s0] =>
    destruct (crawl_states_answered states ∅ s0) as (s' & -> & Hq & Hj) end.
  exists (elements (gathered results_of (all_tournaments states) ∅)), s'.
  split; [reflexivity | split; [apply NoDup_elements | split; [| split]]].
  - intros u. rewrite elem_of_elements, gathered_elem.
    split; [intros [H | H]; [now apply elem_of_empty in H | exact H] | auto].
  - rewrite Hj. simpl. rewrite !omap_app. simpl. now rewrite <- !app_assoc.
  - destruct Hq as (Hd & Hk & Hs). simpl in *. repeat split; auto.
    rewrite Hs, saves_app. apply app_nil_r.
Qed.

End Answering.

End Crawl.

(** ** The further properties on concrete inputs *)

Lemma day_distance_separates_dates_witness :
  Date.toordinal (ymd 2020 2 29) < Date.toordinal (ymd 2020 3 1).
Proof.
  destruct (day_distance_separates_dates (ymd 2020 2 29) (ymd 2020 3 1))
    as [H _]; [reflexivity | reflexivity |].
  apply H. right. split; [reflexivity |]. left. simpl. lia.
Defined.

Lemma get_puzzle_history_effects_witness :
  let w := blank [Raise (ResponseError 429);
                  Ret [Track.mk "Puzzles" [(2020, 2, 4, 1500)]]] in
  exists evs,
    [Request "alice"; Log Info RateLimited; Sleep 61; Request "alice"]
    = trace w ++ evs
    /\ saves evs = []
    /\ ((fst (scripted "alice" (env w)) <> Raise (ResponseError 429)
         /\ requests evs = [Request "alice"] /\ sleeps evs = [])
        \/ (fst (scripted "alice" (env w)) = Raise (ResponseError 429)
            /\ requests evs = [Request "alice"; Request "alice"]
            /\ sleeps evs = [Sleep 61])).
Proof.
  intros w.
  destruct (get_puzzle_history_effects _ scripted "alice" w
              (Ret (Some [(2020, 2, 4, 1500)]))
              (mkWorld [] [] ∅
                 [Request "alice"; Log Info RateLimited; Sleep 61; Request "alice"]))
    as (_ & _ & H & _); [reflexivity | exact H].
Defined.

Lemma first_puzzles_track_wins_witness :
  get_puzzle_history scripted "alice"
    (blank [Ret [Track.mk "Blitz" [(2019, 0, 1, 1800)];
                 Track.mk "Puzzles" [(2020, 2, 4, 1500)];
                 Track.mk "Puzzles" [(2020, 2, 5, 1400)]]])
  = (Ret (Some [(2020, 2, 4, 1500)]), mkWorld [] [] ∅ [Request "alice"]).
Proof.
  apply (first_puzzles_track_wins _ scripted "alice"
           (blank [Ret [Track.mk "Blitz" [(2019, 0, 1, 1800)];
                        Track.mk "Puzzles" [(2020, 2, 4, 1500)];
                        Track.mk "Puzzles" [(2020, 2, 5, 1400)]]])
           [Track.mk "Blitz" [(2019, 0, 1, 1800)]]
           (Track.mk "Puzzles" [(2020, 2, 4, 1500)])
           [Track.mk "Puzzles" [(2020, 2, 5, 1400)]] []).
  - reflexivity.
  - repeat constructor. simpl. discriminate.
  - reflexivity.
Defined.

Lemma empty_history_cached_as_empty_witness :
  fetch_body scripted "perf.json" "alice" (mkCounters 0 0 0)
    (blank [Ret [Track.mk "Puzzles" []]])
  = (Ret (mkCounters 1 0 0),
     mkWorld [] [("alice"%string, Some [])]
       {[ "perf.json"%string := CacheFile [("alice"%string, Some [])] ]}
       [Request "alice"; Saved "perf.json" (CacheFile [("alice"%string, Some [])])]).
Proof.
  destruct (empty_history_cached_as_empty _ scripted "perf.json" "alice"
              (mkCounters 0 0 0) (blank [Ret [Track.mk "Puzzles" []]])
              [] (Track.mk "Puzzles" []) [] [])
    as [H _]; [reflexivity | reflexivity | constructor | reflexivity | reflexivity |].
  exact H.
Defined.

Lemma nothing_to_fetch_witness :
  fetch_perf scripted 0 "perf.json" ["alice"; "bob"]%string
    (blank [Ret [Track.mk "Puzzles" [(2020, 2, 4, 1500)]]])
  = (Ret [],
     mkWorld [Ret [Track.mk "Puzzles" [(2020, 2, 4, 1500)]]] [] ∅
       [Log Info (SavedPerf 0)]).
Proof.
  apply (nothing_to_fetch _ scripted 0 "perf.json" ["alice"; "bob"]%string
           (blank [Ret [Track.mk "Puzzles" [(2020, 2, 4, 1500)]]])).
  left. lia.
Defined.

Lemma fetch_perf_bounded_cost_witness :
  let users := ["alice"; "bob"; "carol"]%string in
  let w := blank [Raise (ResponseError 429);
                  Ret [Track.mk "Puzzles" [(2020, 2, 4, 1500)]];
                  Raise (ResponseError 404)] in
  let k := length (examined 2 users 0) in
  (k <= length users)%nat
  /\ Z.of_nat k <= Z.max 0 2
  /\ exists evs,
       [Request "alice"; Log Info RateLimited; Sleep 61; Request "alice";
        Saved "perf.json" (CacheFile [("alice"%string, Some [(2020, 2, 4, 1500)])]);
        Request "bob"; Log Warning (UserMissing "bob");
        Saved "perf.json" (CacheFile [("alice"%string, Some [(2020, 2, 4, 1500)]);
                                      ("bob"%string, None)]);
        Log Info (SavedPerf 2)] = trace w ++ evs
       /\ (length (requests evs) <= 2 * k)%nat
       /\ (length (sleeps evs) <= k)%nat
       /\ Forall (fun e => e = Sleep 61) (sleeps evs)
       /\ (length (saves evs) <= k)%nat.
Proof.
  intros users w k.
  refine (fetch_perf_bounded_cost _ scripted 2 "perf.json" users w
            (Ret [("alice"%string, Some [(2020, 2, 4, 1500)]); ("bob"%string, None)])
            (mkWorld [] _ _ _) _).
  vm_compute. reflexivity.
Defined.

Lemma fetch_perf_adds_examined_witness :
  let users := ["alice"; "bob"; "alice"; "carol"]%string in
  let r := [("bob"%string, None); ("alice"%string, Some [(2020, 2, 4, 1500)])] in
  lookup_user "alice" r <> None
  /\ exists new,
       r = [("bob"%string, None)] ++ new
       /\ NoDup (map fst new)
       /\ (forall u, u ∈ map fst new
                     <-> u ∈ examined 3 users 0
                         /\ lookup_user u [("bob"%string, None)] = None).
Proof.
  intros users r.
  destruct (fetch_perf_adds_examined _ scripted 3 "perf.json" users
              (mkWorld [Ret [Track.mk "Puzzles" [(2020, 2, 4, 1500)]]]
                       [("bob"%string, None)] ∅ [])
              r
              (mkWorld [] r {[ "perf.json"%string := CacheFile r ]}
                 [Request "alice"; Saved "perf.json" (CacheFile r);
                  Log Info (SavedPerf 2)]))
    as (_ & H & Hnew); [vm_compute; reflexivity |].
  split; [apply H; left | exact Hnew].
Defined.

Lemma user_list_never_saved_witness :
  exists e,
    fst (fetch_tournament_users two_tournaments
           (fun tid e => (Ret (two_results tid), e)) "users.json"
           (mkSession (blank tt) []))
    = Raise e.
Proof.
  destruct (fetch_tournament_users two_tournaments
              (fun tid e => (Ret (two_results tid), e)) "users.json"
              (mkSession (blank tt) [])) as [o s'] eqn:H.
  apply user_list_never_saved in H. exact (proj1 H).
Defined.

Lemma crawl_gathers_every_user_witness :
  exists users s',
    get_tournament_users two_tournaments (fun tid e => (Ret (two_results tid), e))
      (mkSession (blank tt) [])
    = (Ret users, s')
    /\ NoDup users
    /\ (forall u,
          u ∈ users
          <-> exists t r,
                t ∈ [Tournament.mk "t1"; Tournament.mk "t2"]
                /\ r ∈ two_results (Tournament.id t)
                /\ Result.username r = u)
    /\ omap request_of (journal s') = ["tournaments"; "t1"; "t2"]%string
    /\ quiet (blank tt) (world_of s').
Proof.
  apply (crawl_gathers_every_user unit two_tournaments
           (fun tid e => (Ret (two_results tid), e))
           [("started"%string, [Tournament.mk "t1"]);
            ("finished"%string, [Tournament.mk "t2"])]
           two_results).
  - reflexivity.
  - reflexivity.
Defined.

Example period_on_a_sample :
  period (Z * Z) (fun a b => (a, b)) (fun q => Z.quot (fst q) (snd q))
    (deltas [(1500, 1530, 0, 0); (1500, 1480, 0, 0); (1500, 1500, 0, 0)])
  = Some (-3, (1, 3), 20, (1, 3), -30)
  /\ period (Z * Z) (fun a b => (a, b)) (fun q => Z.quot (fst q) (snd q))
       (deltas [(1500, 1530, 0, 0); (1500, 1510, 0, 0)])
     = None.
Proof. split; reflexivity. Qed.

Example crawl_runs :
  fst (get_tournament_users two_tournaments (fun tid e => (Ret (two_results tid), e))
         (mkSession (blank tt) []))
  = Ret (elements ({["alice"; "bob"; "carol"]} : gset string))%string.
Proof. vm_compute. reflexivity. Qed.

(** ** Resuming a fetch *)

Lemma replay_extends reply num users k cache :
  exists more, snd (replay reply num users k cache) = cache ++ more.
Proof.
  revert k cache. induction users as [|user rest IH]; intros k cache; simpl.
  - exists []. now rewrite app_nil_r.
  - destruct (num <=? k); [exists []; now rewrite app_nil_r |].
    destruct (lookup_user user cache); [apply IH |].
    destruct (answer reply user) as [h | e]; [| exists []; now rewrite app_nil_r].
    destruct (IH (k + 1) (cache ++ [(user, h)])) as (more & ->).
    exists ((user, h) :: more). now rewrite <- app_assoc.
Qed.

(** The cache a first pass leaves is one from which a pass with a limit
    at least as large ends as it would have from the start. *)
Lemma replay_resumed reply num1 num2 users k cache :
  num1 <= num2 ->
  replay reply num2 users k (snd (replay reply num1 users k cache))
  = replay reply num2 users k cache.
Proof.
  intros Hle. revert k cache. induction users as [|user rest IH]; intros k cache.
  - reflexivity.
  - cbn [replay]. destruct (Z.leb_spec num1 k) as [H1 | H1]; [reflexivity |].
    destruct (Z.leb_spec num2 k) as [H2 | H2]; [lia |].
    destruct (lookup_user user cache) as [p|] eqn:Hl.
    + destruct (replay_extends reply num1 rest (k + 1) cache) as (more & Hm).
      assert (lookup_user user (snd (replay reply num1 rest (k + 1) cache)) = Some p)
        as Hl' by (rewrite Hm, lookup_user_app, Hl; reflexivity).
      rewrite Hl'. apply IH.
    + destruct (answer reply user) as [h | e] eqn:Ha.
      * destruct (replay_extends reply num1 rest (k + 1) (cache ++ [(user, h)]))
          as (more & Hm).
        assert (lookup_user user
                  (snd (replay reply num1 rest (k + 1) (cache ++ [(user, h)])))
                = Some h) as Hl'.
        { rewrite Hm, !lookup_user_app, Hl. simpl.
          destruct (decide (user = user)); [reflexivity | contradiction]. }
        rewrite Hl'. apply IH.
      * simpl. rewrite Hl. reflexivity.
Qed.

Section Resuming.

Variable Env : Type.
Variable remote : string -> Env -> outcome (list track) * Env.

(** The answers of the service depend on the user only. *)
Variable reply : string -> outcome (list track).
Hypothesis remote_replies : forall user e, remote user e = (reply user, e).

Implicit Types (w : world Env) (c : counters).

Lemma get_puzzle_history_replies user w :
  exists w1,
    get_puzzle_history remote user w = (answer reply user, w1)
    /\ quiet w w1.
Proof.
  destruct (get_puzzle_history remote user w) as [o w1] eqn:H.
  exists w1. split; [| eapply get_puzzle_history_quiet; exact H].
  f_equal. unfold answer.
  pose proof (remote_replies user (env w)) as Hr.
  destruct (reply user) as [history | [status_code | err]] eqn:Hreply.
  - rewrite (get_puzzle_history_found _ _ _ _ _ _ Hr) in H. congruence.
  - destruct (Z.eqb_spec status_code 404) as [-> | H404].
    + rewrite (get_puzzle_history_404 _ _ _ _ _ Hr) in H. congruence.
    + destruct (decide (status_code = 429)) as [-> | H429].
      * rewrite (get_puzzle_history_429 _ _ _ _ _ Hr) in H.
        rewrite remote_replies, Hreply in H. simpl in H. congruence.
      * rewrite (get_puzzle_history_fatal _ _ _ _ _ _ Hr H404 H429) in H. congruence.
  - rewrite (get_puzzle_history_other _ _ _ _ _ _ Hr) in H. congruence.
Qed.

Lemma fetch_loop_replays num filename users c w o w' :
  fetch_loop remote num filename users c w = (o, w') ->
  (raised o, data w') = replay reply num users (checked c) (data w).
Proof.
  revert c w. induction users as [|user rest IH]; intros c w.
  - intros [= <- <-]. reflexivity.
  - cbn [replay]. destruct (Z.leb_spec num (checked c)) as [Hstop | Hgo].
    + rewrite fetch_loop_stop by exact Hstop. intros [= <- <-]. reflexivity.
    + rewrite fetch_loop_step by exact Hgo.
      destruct (lookup_user user (data w)) as [p|] eqn:Hl.
      * rewrite (fetch_body_hit _ _ _ _ _ _ _ Hl). intros H. apply IH in H.
        rewrite progress_data in H. exact H.
      * destruct (get_puzzle_history_replies user w) as (w1 & Hg & Hq).
        destruct (answer reply user) as [h | e].
        -- rewrite (fetch_body_miss _ _ _ _ _ _ _ _ Hl Hg). intros H. apply IH in H.
           rewrite progress_data in H. unfold committed in H. simpl in H.
           destruct Hq as (Hd & _). rewrite Hd in H. exact H.
        -- rewrite (fetch_body_raise _ _ _ _ _ _ _ _ Hl Hg). intros [= <- <-].
           destruct Hq as (-> & _). reflexivity.
Qed.

Lemma fetch_perf_replays num filename users w o w' :
  fetch_perf remote num filename users w = (o, w') ->
  (raised o, data w') = replay reply num users 0 (data w)
  /\ (forall r, o = Ret r -> r = data w')
  /\ persisted filename w w'.
Proof.
  intros H.
  assert (persisted filename w w') as Hp.
  { eapply (fetch_perf_rel _ _ (persisted filename));
      [apply persisted_refl | apply persisted_trans | | | exact H].
    - intros w0 e He _. apply persisted_quiet. now apply quiet_emit.
    - intros. eapply fetch_body_persisted; eauto. }
  apply fetch_perf_cases in H as [(c & w1 & Hl & -> & ->) | (e & Hl & ->)].
  - apply fetch_loop_replays in Hl. simpl in *.
    split; [exact Hl | split; [intros r [= <-]; reflexivity | exact Hp]].
  - apply fetch_loop_replays in Hl. simpl in *.
    split; [exact Hl | split; [discriminate | exact Hp]].
Qed.

(** X16. A fetch can be resumed. When the answers of the service depend on the
    user only, a run of [fetch_perf] that follows an earlier run over the same
    candidates with a limit no larger — whether that earlier run returned or
    ended with an exception — ends as a single run from the start would
    have: with the same result or the same exception, the same cache, and
    the same files. *)
Theorem fetch_can_be_resumed :
  forall num1 num2 filename users w o1 w1 o2 w2 o w',
    num1 <= num2 ->
    fetch_perf remote num1 filename users w = (o1, w1) ->
    fetch_perf remote num2 filename users w1 = (o2, w2) ->
    fetch_perf remote num2 filename users w = (o, w') ->
    o2 = o /\ data w2 = data w' /\ disk w2 = disk w'.
Proof.
  intros num1 num2 filename users w o1 w1 o2 w2 o w' Hle H1 H2 H.
  apply fetch_perf_replays in H1 as (Hr1 & _ & Hp1).
  apply fetch_perf_replays in H2 as (Hr2 & Hret2 & Hp2).
  apply fetch_perf_replays in H as (Hr & Hret & Hp).
  assert (data w1 = snd (replay reply num1 users 0 (data w))) as Hd1
      by (now rewrite <- Hr1).
  rewrite Hd1, (replay_resumed _ _ _ _ _ _ Hle), <- Hr in Hr2.
  injection Hr2 as Hraised Hdata.
  assert (o2 = o) as Ho.
  { destruct o2 as [r2 | e2], o as [r | e]; simpl in Hraised; try discriminate.
    - rewrite (Hret2 _ eq_refl), (Hret _ eq_refl). now f_equal.
    - congruence. }
  split; [exact Ho | split; [exact Hdata |]].
  destruct Hp1 as (n1 & Hn1 & _ & He1 & Hi1).
  destruct Hp2 as (n2 & Hn2 & _ & He2 & Hi2).
  destruct Hp as (n & Hn & _ & He & Hi).
  assert (n = n1 ++ n2) as ->.
  { rewrite Hdata, Hn1, <- app_assoc, Hn in Hn2. now apply app_inv_head in Hn2. }
  destruct n1 as [|x1 n1], n2 as [|x2 n2].
  - rewrite He2, He1, He; reflexivity.
  - rewrite Hi2 by discriminate. rewrite He1 by reflexivity.
    rewrite Hi by discriminate. now rewrite Hdata.
  - rewrite He2 by reflexivity. rewrite Hi1 by discriminate.
    rewrite Hi by discriminate. rewrite <- Hdata, Hn2. now rewrite app_nil_r.
  - rewrite Hi2 by discriminate. rewrite Hi1 by discriminate.
    rewrite Hi by discriminate. rewrite insert_insert_eq. now rewrite Hdata.
Qed.

End Resuming.

Lemma fetch_can_be_resumed_witness :
  let users := ["alice"; "bob"; "carol"]%string in
  let first := fetch_perf steady 1 "perf.json" users (blank tt) in
  let second := fetch_perf steady 3 "perf.json" users (snd first) in
  let single := fetch_perf steady 3 "perf.json" users (blank tt) in
  fst second = fst single
  /\ data (snd second) = data (snd single)
  /\ disk (snd second) = disk (snd single).
Proof.
  intros users first second single.
  apply (fetch_can_be_resumed unit steady steady_reply (fun _ _ => eq_refl)
           1 3 "perf.json" users (blank tt) (fst first) (snd first)).
  - lia.
  - apply surjective_pairing.
  - apply surjective_pairing.
  - apply surjective_pairing.
Defined.

(** ** The order of a series and the names of the users *)

Lemma nearest_distance_least target perf q :
  q ∈ perf ->
  days_apart (fst (nearest target perf)) target <= days_apart (fst q) target.
Proof.
  intros Hq.
  destruct (nearest_cases target perf) as [[-> Hall] | (p & Hp & _ & ->)]; simpl.
  - rewrite Forall_forall in Hall. exact (Hall _ Hq).
  - exact (first_nearest_least _ _ _ _ Hp Hq).
Qed.

Lemma nearest_selected target perf :
  snd (nearest target perf) <> None ->
  exists p, p ∈ perf /\ nearest target perf = (fst p, Some (snd p))
            /\ days_apart (fst p) target < days_apart Date.min target.
Proof.
  destruct (nearest_cases target perf) as [[-> _] | (p & Hp & Hlt & ->)]; simpl.
  - contradiction.
  - intros _. exists p. split; [exact (first_nearest_elem _ _ _ Hp) | auto].
Qed.

Lemma nearest_kept target perf :
  snd (nearest target perf) = None ->
  nearest target perf = (Date.min, None)
  /\ Forall (fun q => days_apart Date.min target <= days_apart (fst q) target) perf.
Proof.
  destruct (nearest_cases target perf) as [[-> Hall] | (p & _ & _ & ->)]; simpl.
  - auto.
  - discriminate.
Qed.

(** X6. The order of a series matters for ties only: over any reordering of
    the points the candidate for a target is at the same distance, carries a
    score or not alike, and is the same point whenever every point at that
    distance is that point. *)
Theorem series_order_matters_for_ties_only :
  forall target perf perf',
    perf ≡ₚ perf' ->
    days_apart (fst (nearest target perf)) target
    = days_apart (fst (nearest target perf')) target
    /\ (snd (nearest target perf) = None <-> snd (nearest target perf') = None)
    /\ ((forall q, q ∈ perf ->
           days_apart (fst q) target = days_apart (fst (nearest target perf)) target ->
           (fst q, Some (snd q)) = nearest target perf) ->
        nearest target perf' = nearest target perf).
Proof.
  intros target perf perf' Hperm.
  assert (forall q, q ∈ perf <-> q ∈ perf') as Hmem
      by (intros q; now rewrite Hperm).
  destruct (snd (nearest target perf)) as [v|] eqn:Hs,
           (snd (nearest target perf')) as [v'|] eqn:Hs'.
  - destruct (nearest_selected target perf) as (p & Hp & Hn & Hlt); [congruence |].
    destruct (nearest_selected target perf') as (p' & Hp' & Hn' & Hlt'); [congruence |].
    pose proof (nearest_distance_least target perf p' (proj2 (Hmem _) Hp')) as H1.
    pose proof (nearest_distance_least target perf' p (proj1 (Hmem _) Hp)) as H2.
    rewrite Hn in H1. rewrite Hn' in H2. simpl in H1, H2.
    rewrite Hn, Hn'. simpl.
    split; [lia | split; [split; discriminate |]].
    intros Huniq. simpl in Huniq.
    apply (Huniq p' (proj2 (Hmem _) Hp')). lia.
  - exfalso.
    destruct (nearest_selected target perf) as (p & Hp & Hn & Hlt); [congruence |].
    destruct (nearest_kept target perf' Hs') as [_ Hall].
    rewrite Forall_forall in Hall. specialize (Hall _ (proj1 (Hmem _) Hp)). lia.
  - exfalso.
    destruct (nearest_selected target perf') as (p & Hp & Hn & Hlt); [congruence |].
    destruct (nearest_kept target perf Hs) as [_ Hall].
    rewrite Forall_forall in Hall. specialize (Hall _ (proj2 (Hmem _) Hp)). lia.
  - destruct (nearest_kept target perf Hs) as [-> _].
    destruct (nearest_kept target perf' Hs') as [-> _].
    split; [reflexivity | split; [tauto | reflexivity]].
Qed.

Lemma series_order_matters_for_ties_only_witness :
  nearest (ymd 2020 3 5) [(ymd 2020 4 6, 150); (ymd 2020 3 4, 110); (ymd 2020 2 1, 100)]
  = nearest (ymd 2020 3 5) [(ymd 2020 2 1, 100); (ymd 2020 3 4, 110); (ymd 2020 4 6, 150)].
Proof.
  destruct (series_order_matters_for_ties_only (ymd 2020 3 5)
              [(ymd 2020 2 1, 100); (ymd 2020 3 4, 110); (ymd 2020 4 6, 150)]
              [(ymd 2020 4 6, 150); (ymd 2020 3 4, 110); (ymd 2020 2 1, 100)])
    as (_ & _ & H).
  - apply Permutation_sym. eapply perm_trans; [apply perm_swap |].
    eapply perm_trans; [apply perm_skip, perm_swap |]. apply perm_swap.
  - apply H. intros q Hq Hd.
    repeat (apply elem_of_cons in Hq as [-> | Hq]);
      [vm_compute in Hd; discriminate | reflexivity
       | vm_compute in Hd; discriminate | now apply elem_of_nil in Hq].
Defined.

(** The names of the users play no part in the filtering: renaming the
    users, in any way, leaves the emitted tuples unchanged. *)
Lemma user_names_are_ignored :
  forall start end_ tolerance ref_start ref_end ref_tolerance
         (rename : string -> string) l,
    filter_values start end_ tolerance ref_start ref_end ref_tolerance
      (map (fun up => (rename (fst up), snd up)) l)
    = filter_values start end_ tolerance ref_start ref_end ref_tolerance l.
Proof.
  intros start end_ tolerance ref_start ref_end ref_tolerance rename l.
  induction l as [|[u perf] l IH]; simpl; [reflexivity |].
  rewrite IH. reflexivity.
Qed.

(** ** The exception of [parse_perf] *)

Lemma valid_c_int y m d :
  Date.valid y m d = true -> c_int y && c_int m && c_int d = true.
Proof.
  unfold Date.valid, c_int. intros H.
  repeat (apply andb_prop in H as [H ?]).
  assert (Date.days_in_month y m <= 31) as Hdim.
  { unfold Date.days_in_month.
    destruct ((m =? 2) && Date.is_leap y); [lia |].
    assert (m = 1 \/ m = 2 \/ m = 3 \/ m = 4 \/ m = 5 \/ m = 6 \/ m = 7 \/ m = 8
            \/ m = 9 \/ m = 10 \/ m = 11 \/ m = 12) as Hm by lia.
    repeat (destruct Hm as [-> | Hm]; [simpl; lia |]). subst m. simpl. lia. }
  repeat (apply andb_true_intro; split); lia.
Qed.

Lemma raising_make y m d :
  match Date.make y m d with
  | Some a => Raising.make y m d = Ret a
  | None =>
      Raising.make y m d
      = Raise (if c_int y && c_int m && c_int d then ValueError else OverflowError)
  end.
Proof.
  unfold Date.make, Raising.make.
  destruct (Date.valid y m d) eqn:Hv.
  - now rewrite (valid_c_int _ _ _ Hv).
  - now destruct (c_int y && c_int m && c_int d).
Qed.

Lemma raising_parse_point r :
  match parse_point r with
  | Some p => Raising.parse_point r = Ret p
  | None =>
      Raising.parse_point r = Raise (if fits r then ValueError else OverflowError)
  end.
Proof.
  destruct r as [[[y m] dd] v]. unfold parse_point, Raising.parse_point, fits.
  pose proof (raising_make y (m + 1) dd) as H.
  destruct (Date.make y (m + 1) dd); now rewrite H.
Qed.

Lemma raising_parse_points perf :
  match parse_points perf with
  | Some ps => Raising.parse_points perf = Ret ps
  | None =>
      exists e,
        Raising.parse_points perf = Raise e
        /\ date_exception (Forall (fun r => fits r = true) perf) e
  end.
Proof.
  induction perf as [|r perf IH]; simpl; [reflexivity |].
  pose proof (raising_parse_point r) as Hr.
  destruct (parse_point r) as [p|]; rewrite Hr.
  - destruct (parse_points perf) as [ps|].
    + now rewrite IH.
    + destruct IH as (e & -> & Hcls & Hfit). exists e.
      split; [reflexivity |]. split; [exact Hcls |].
      intros Hall. apply Forall_cons in Hall as [_ Hall]. auto.
  - eexists. split; [reflexivity |]. split.
    + destruct (fits r); auto.
    + intros Hall. apply Forall_cons in Hall as [-> _]. reflexivity.
Qed.

Lemma raising_parse_perf d :
  match parse_perf d with
  | Some out => Raising.parse_perf d = Ret out
  | None =>
      exists e,
        Raising.parse_perf d = Raise e
        /\ date_exception (Forall (fun en => all_fit (snd en)) d) e
  end.
Proof.
  induction d as [|[user perf] d IH]; simpl; [reflexivity |].
  destruct (truthy_perf perf).
  - pose proof (raising_parse_points (default [] perf)) as Hp.
    destruct (parse_points (default [] perf)) as [ps|].
    + rewrite Hp. destruct (parse_perf d) as [out|].
      * now rewrite IH.
      * destruct IH as (e & -> & Hcls & Hfit). exists e.
        split; [reflexivity |]. split; [exact Hcls |].
        intros Hall. apply Forall_cons in Hall as [_ Hall]. auto.
    + destruct Hp as (e & -> & Hcls & Hfit). exists e.
      split; [reflexivity |]. split; [exact Hcls |].
      intros Hall. apply Forall_cons in Hall as [Hall _]. auto.
  - destruct (parse_perf d) as [out|]; [exact IH |].
    destruct IH as (e & -> & Hcls & Hfit). exists e.
    split; [reflexivity |]. split; [exact Hcls |].
    intros Hall. apply Forall_cons in Hall as [_ Hall]. auto.
Qed.

(** ** The script *)

Section Running.

Variable Env : Type.
Variable analyze :
  file -> date -> date -> timedelta -> date -> date -> timedelta -> SM Env unit.

Implicit Types (s : session Env) (args : arguments).

(** X22. Whatever the command, the script first loads the file of cached
    performance: without that file it ends with the error of [open], having
    done nothing, on a first [fetch] as well as for [stats], which does not
    use the cache. *)
Theorem script_needs_the_cache_file :
  forall args s,
    disk (world_of s) !! perffile args = None ->
    main analyze args s = (Raise FileNotFoundError, s).
Proof.
  intros args s H. unfold main, sbind at 1, read_json. now rewrite H.
Qed.

(** X24. The [filter] command, on a cache whose dates parse, writes to
    [sample.json] the tuples that [filter_perf] emits for the parsed cache
    with both tolerances at 7 days, asks nothing of the remote service and
    leaves the cache as it was. On a cache with a date that does not parse
    it ends with the exception of the first [datetime.date] call that
    fails, nothing being written: a [ValueError], or an [OverflowError]
    when an argument of that call does not fit a C [int]; it is the
    [ValueError] when every cached point fits. *)
Theorem filter_command_writes_the_sample :
  forall args s d,
    command_of args = Filter ->
    disk (world_of s) !! perffile args = Some (CacheFile d) ->
    let w := world_of s in
    (forall parsed,
       parse_perf d = Some parsed ->
       let values :=
         filter_values (start_date args) (end_date args) 7
                       (ref_start_date args) (ref_end_date args) 7 parsed in
       exists s',
         main analyze args s = (Ret tt, s')
         /\ world_of s'
            = mkWorld (env w) (data w)
                (<["sample.json"%string := SampleFile values]> (disk w))
                (trace w ++ [Log Info (SavedSample (Z.of_nat (length values)));
                             Saved "sample.json" (SampleFile values)]))
    /\ (parse_perf d = None ->
        exists e,
          Raising.parse_perf d = Raise e
          /\ (e = ValueError \/ e = OverflowError)
          /\ (Forall (fun en => all_fit (snd en)) d -> e = ValueError)
          /\ main analyze args s
             = (Raise e,
                mkSession w
                  (journal s ++ [Noted Info (ReadPerf (Z.of_nat (length d)))]))).
Proof.
  intros args s d Hc Hf w. split.
  - intros parsed Hp values. unfold main, sbind at 1, read_json. rewrite Hf.
    unfold sbind at 1, noted. rewrite Hc. cbn [as_perf].
    pose proof (raising_parse_perf d) as Hr. rewrite Hp in Hr. rewrite Hr.
    unfold sbind, lift, sret. cbn [world_of journal].
    pose proof (filter_perf_returns Env parsed (start_date args) (end_date args) 7
                  (ref_start_date args) (ref_end_date args) 7 (world_of s)) as E.
    cbv zeta in E. rewrite E. eexists. split; reflexivity.
  - intros Hp. pose proof (raising_parse_perf d) as Hr. rewrite Hp in Hr.
    destruct Hr as (e & Hr & Hcls & Hfit). exists e.
    split; [exact Hr |]. split; [exact Hcls |]. split; [exact Hfit |].
    unfold main, sbind at 1, read_json. rewrite Hf.
    unfold sbind at 1, noted. rewrite Hc. simpl. rewrite Hr. reflexivity.
Qed.

End Running.

Lemma script_needs_the_cache_file_witness :
  main (fun _ _ _ _ _ _ _ s => (Ret tt, s))
    (mkArguments Stats "users.json" "perf.json" 10000 (ymd 2020 3 5) (ymd 2020 4 5)
                 (ymd 2020 2 1) (ymd 2020 3 1))
    (mkSession (blank tt) [])
  = (Raise FileNotFoundError, mkSession (blank tt) []).
Proof. apply script_needs_the_cache_file. reflexivity. Defined.

Lemma filter_command_writes_the_sample_witness :
  let args :=
    mkArguments Filter "users.json" "perf.json" 10000 (ymd 2020 3 5) (ymd 2020 4 5)
                (ymd 2020 2 1) (ymd 2020 3 1) in
  let run cache :=
    main (fun _ _ _ _ _ _ _ s => (Ret tt, s)) args
      (mkSession (mkWorld tt [] {[ "perf.json"%string := CacheFile cache ]} []) []) in
  (exists s',
     run [("A"%string, Some [(2020, 1, 1, 100); (2020, 2, 1, 120);
                             (2020, 2, 5, 110); (2020, 3, 5, 150)]);
          ("B"%string, None)]
     = (Ret tt, s')
     /\ disk (world_of s') !! "sample.json"%string
        = Some (SampleFile [(Some 110, Some 150, Some 100, Some 120)]))
  /\ run [("A"%string, Some [(2020, 1, 30, 1500)])]
     = (Raise ValueError,
        mkSession
          (mkWorld tt []
             {[ "perf.json"%string
                := CacheFile [("A"%string, Some [(2020, 1, 30, 1500)])] ]} [])
          [Noted Info (ReadPerf 1)])
  /\ run [("A"%string, Some [(2147483648, 0, 1, 1500)])]
     = (Raise OverflowError,
        mkSession
          (mkWorld tt []
             {[ "perf.json"%string
                := CacheFile [("A"%string, Some [(2147483648, 0, 1, 1500)])] ]} [])
          [Noted Info (ReadPerf 1)]).
Proof.
  intros args run.
  pose (at_cache (cache : list entry) :=
          mkSession (mkWorld tt [] {[ "perf.json"%string := CacheFile cache ]} []) []).
  split; [| split].
  - set (cache := [("A"%string, Some [(2020, 1, 1, 100); (2020, 2, 1, 120);
                                      (2020, 2, 5, 110); (2020, 3, 5, 150)]);
                   ("B"%string, None)]).
    destruct (filter_command_writes_the_sample unit (fun _ _ _ _ _ _ _ s => (Ret tt, s))
                args (at_cache cache) cache eq_refl eq_refl) as [H _].
    destruct (H _ eq_refl) as (s' & Hm & Hw).
    exists s'. split; [exact Hm |]. rewrite Hw. vm_compute. reflexivity.
  - set (cache := [("A"%string, Some [(2020, 1, 30, 1500)])]).
    destruct (filter_command_writes_the_sample unit (fun _ _ _ _ _ _ _ s => (Ret tt, s))
                args (at_cache cache) cache eq_refl eq_refl) as [_ H].
    destruct (H eq_refl) as (e & He & _ & _ & Hm).
    injection He as <-. exact Hm.
  - set (cache := [("A"%string, Some [(2147483648, 0, 1, 1500)])]).
    destruct (filter_command_writes_the_sample unit (fun _ _ _ _ _ _ _ s => (Ret tt, s))
                args (at_cache cache) cache eq_refl eq_refl) as [_ H].
    destruct (H eq_refl) as (e & He & _ & _ & Hm).
    injection He as <-. exact Hm.
Defined.
